(** * Panini: the page render pipeline ([lib/render.js])

    A shallow embedding of [render], the through2 transform that turns one
    page into its final HTML: layout resolution, the purge and extraction of
    inline [layout-] partials, the layered page data, and the two error
    branches of the [catch] block.

    The repository carries two copies of [render]: [lib/render.js], whose
    extraction loop runs one combined comment-or-partial regular expression
    over the page body, and a second copy whose loop runs a partial-only
    expression over the body with its comments removed.  Everything except
    the extraction block is the same in both; the two blocks are embedded
    side by side in the modules [RenderJs] and [RenderAlt]. *)

From Stdlib Require Import String Ascii List NArith ZArith DecimalString Lia Bool.
From stdpp Require Import gmap list.

Set Default Proof Using "Type".
Set Warnings "-register-all".
Local Open Scope N_scope.

(** ** JavaScript strings

    A JavaScript string is a sequence of UTF-16 code units.  [js] embeds a
    literal; every literal of the source is ASCII. *)

Abbreviation jsstring := (list N).

Definition js (s : string) : jsstring :=
  List.map N_of_ascii (list_ascii_of_string s).

(** [s.indexOf(p) === 0], and the prefix test behind every literal of a
    regular expression: [strip_prefix p s] is what follows [p] in [s]. *)
Fixpoint strip_prefix (p s : jsstring) : option jsstring :=
  match p with
  | [] => Some s
  | a :: p' =>
      match s with
      | [] => None
      | b :: s' => if N.eqb a b then strip_prefix p' s' else None
      end
  end.

Definition starts_with (p s : jsstring) : bool :=
  match strip_prefix p s with Some _ => true | None => false end.

(** [s.indexOf(p) !== -1]. *)
Fixpoint includes (p s : jsstring) : bool :=
  starts_with p s ||
  match s with
  | [] => false
  | _ :: s' => includes p s'
  end.

(** [s.replace(p, r)] with a string pattern: only the first occurrence of
    [p] is replaced ([r] holds no [$], it is the empty string at both call
    sites). *)
Fixpoint replace_first (p r s : jsstring) : jsstring :=
  match strip_prefix p s with
  | Some rest => r ++ rest
  | None =>
      match s with
      | [] => []
      | c :: s' => c :: replace_first p r s'
      end
  end.

(** ** Character classes of the regular expressions *)

(** [\s]: the white space and line terminator code units of ECMAScript. *)
Definition is_space (c : N) : bool :=
  ((9 <=? c) && (c <=? 13)) || (c =? 32) || (c =? 160) || (c =? 5760)
  || ((8192 <=? c) && (c <=? 8202)) || (c =? 8232) || (c =? 8233)
  || (c =? 8239) || (c =? 8287) || (c =? 12288) || (c =? 65279).

(** [[0-9a-zA-Z_-]]. *)
Definition is_name_char (c : N) : bool :=
  ((48 <=? c) && (c <=? 57)) || ((97 <=? c) && (c <=? 122))
  || ((65 <=? c) && (c <=? 90)) || (c =? 95) || (c =? 45).

(** The quote class of the name: a double or a single quote. *)
Definition is_quote (c : N) : bool := (c =? 34) || (c =? 39).

Definition c_dquote : N := 34.
Definition c_tilde : N := 126.

(** ** Pieces of a backtracking match

    A piece consumes a prefix of the text and returns it with the rest.  In
    both expressions every greedy class is followed by a character outside
    the class ([\s+] by a quote, the name class by a quote, [\s*] by [}] or
    [~], [~?] by [#] or [}]), so the matcher never has a shorter alternative
    that could succeed: greedy pieces are deterministic. *)

Definition piece := jsstring -> option (jsstring * jsstring).

Definition lit (p : jsstring) : piece :=
  fun s => match strip_prefix p s with
           | Some rest => Some (p, rest)
           | None => None
           end.

(** The longest prefix in a class. *)
Fixpoint span (P : N -> bool) (s : jsstring) : jsstring * jsstring :=
  match s with
  | [] => ([], [])
  | c :: s' =>
      if P c then (let '(a, b) := span P s' in (c :: a, b)) else ([], s)
  end.

(** [[class]*] *)
Definition many (P : N -> bool) : piece := fun s => Some (span P s).

(** [[class]+] *)
Definition many1 (P : N -> bool) : piece :=
  fun s => match span P s with
           | ([], _) => None
           | r => Some r
           end.

(** [c{0,1}] *)
Definition opt_char (c : N) : piece :=
  fun s => match s with
           | d :: s' => if N.eqb c d then Some ([c], s') else Some ([], s)
           | [] => Some ([], s)
           end.

(** One character of a class, once. *)
Definition one (P : N -> bool) : piece :=
  fun s => match s with
           | d :: s' => if P d then Some ([d], s') else None
           | [] => None
           end.

(** Sequencing: the consumed texts are concatenated. *)
Definition seq (p q : piece) : piece :=
  fun s => match p s with
           | Some (a, s1) =>
               match q s1 with
               | Some (b, s2) => Some (a ++ b, s2)
               | None => None
               end
           | None => None
           end.

(** [[.\s\S]*?] followed by [close]: the lazy quantifier grows one code unit
    at a time and stops at the first position where the rest of the
    expression matches.  Returns the lazily consumed text, what [close]
    consumed, and the rest. *)
Fixpoint lazy_until (close : piece) (s : jsstring)
  : option (jsstring * jsstring * jsstring) :=
  match close s with
  | Some (c, rest) => Some ([], c, rest)
  | None =>
      match s with
      | [] => None
      | x :: s' =>
          match lazy_until close s' with
          | Some (b, c, rest) => Some (x :: b, c, rest)
          | None => None
          end
      end
  end.

(** A global ([g]) expression driven by [exec] in a loop: the search for the
    next match starts at [lastIndex], the end of the previous one.  [skip]
    counts the code units still covered by the previous match.  Neither
    expression can match the empty string. *)
Fixpoint scan {M : Type} (match_at : jsstring -> option M) (width : M -> nat)
    (s : jsstring) (skip : nat) : list M :=
  match s with
  | [] => []
  | _ :: s' =>
      match skip with
      | S k => scan match_at width s' k
      | O =>
          match match_at s with
          | Some m => m :: scan match_at width s' (Nat.pred (width m))
          | None => scan match_at width s' O
          end
      end
  end.

(** ** The regular expressions of the extraction block *)

(** One inline partial found by [exec]: the whole match ([match[0]], which
    for the combined expression is also [groups.partial]), [groups.name] and
    [groups.body]. *)
Record inline_match := InlineMatch {
  im_whole : jsstring;
  im_name : jsstring;
  im_body : jsstring
}.

(** The comment expression: an opening comment mark, the lazy any-character
    class, and the first closing mark after it.  It is the first alternative
    of the combined expression of [lib/render.js] and the [commentRegex] of
    the second copy.  Returns the whole match. *)
Definition comment_at (s : jsstring) : option jsstring :=
  '(o, r) ← lit (js "{{!--") s;
  '(b, c, _) ← lazy_until (lit (js "--}}")) r;
  Some (o ++ b ++ c).

(** ** JavaScript values *)

(** A thrown [Error]: its [name] and its [message]. *)
Record exn := Exn { ename : jsstring; emsg : jsstring }.

(** [new Error(msg)]. *)
Definition Error (msg : jsstring) : exn := Exn (js "Error") msg.

(** [Error.prototype.toString], which is what ['...' + e] appends. *)
Definition exn_toString (e : exn) : jsstring :=
  match ename e, emsg e with
  | [], m => m
  | n, [] => n
  | n, m => n ++ js ": " ++ m
  end.

(** The values front matter, page data and options hold.  Objects keep their
    keys in insertion order.  [VNum] carries the integral Numbers; a Number
    that is not integral is truthy and never equal to a string, like any
    non-zero [VNum]. *)
Inductive value :=
| VUndefined
| VNull
| VBool (b : bool)
| VNum (z : Z)
| VNaN
| VStr (s : jsstring)
| VArr (l : list value)
| VObj (o : list (jsstring * value))
| VErr (e : exn).

Abbreviation obj := (list (jsstring * value)).

(** ToBoolean. *)
Definition truthy (v : value) : bool :=
  match v with
  | VUndefined | VNull | VBool false | VNaN | VStr [] => false
  | VNum z => negb (Z.eqb z 0)
  | _ => true
  end.

(** [a || b]. *)
Definition js_or (a b : value) : value := if truthy a then a else b.


(** [o[k]] on a plain object: the first binding of [k], else [undefined]. *)
Fixpoint obj_lookup (o : obj) (k : jsstring) : option value :=
  match o with
  | [] => None
  | (k', v) :: o' => if decide (k' = k) then Some v else obj_lookup o' k
  end.

Definition get (o : obj) (k : jsstring) : value :=
  default VUndefined (obj_lookup o k).

(** ToString, for a value used as a property key or appended to a string. *)
Fixpoint join (sep : jsstring) (l : list jsstring) : jsstring :=
  match l with
  | [] => []
  | [x] => x
  | x :: l' => x ++ sep ++ join sep l'
  end.

Fixpoint toString (v : value) : jsstring :=
  match v with
  | VUndefined => js "undefined"
  | VNull => js "null"
  | VBool true => js "true"
  | VBool false => js "false"
  | VNum z => js (DecimalString.NilZero.string_of_int (Z.to_int z))
  | VNaN => js "NaN"
  | VStr s => s
  | VArr l =>
      join (js ",")
        (List.map (fun x => match x with
                            | VUndefined | VNull => []
                            | _ => toString x
                            end) l)
  | VObj _ => js "[object Object]"
  | VErr e => exn_toString e
  end.

(** [layout === 'default']: strict equality with a string. *)
Definition strict_eq_str (v : value) (s : jsstring) : bool :=
  match v with
  | VStr t => bool_decide (t = s)
  | _ => false
  end.

(** ** deepmerge *)

(** Modelled from the spec: the [deepmerge] package ([extend] in the source)
    is a dependency whose code is not part of the repository.  Later keys
    win; a value that is a mapping in both layers is merged key by key,
    recursively; scalars and arrays of the later layer replace the earlier
    value; a key absent from the later layer keeps the earlier value. *)
Fixpoint merge_value (a b : value) {struct a} : value :=
  match a, b with
  | VObj oa, VObj ob =>
      VObj
        ((fix merge_keys (oa : obj) : obj :=
            match oa with
            | [] => []
            | (k, va) :: oa' =>
                (k, match obj_lookup ob k with
                    | Some vb => merge_value va vb
                    | None => va
                    end) :: merge_keys oa'
            end) oa
         ++ List.filter (fun kv => negb (bool_decide (is_Some (obj_lookup oa kv.1)))) ob)
  | _, _ => b
  end.

Definition extend (a b : obj) : obj :=
  match merge_value (VObj a) (VObj b) with
  | VObj o => o
  | _ => b
  end.

(** The keys of the earlier layer, each merged with its later value. *)
Fixpoint merge_keys (oa ob : obj) : obj :=
  match oa with
  | [] => []
  | (k, va) :: oa' =>
      (k, match obj_lookup ob k with
          | Some vb => merge_value va vb
          | None => va
          end) :: merge_keys oa' ob
  end.

Definition fresh_keys (oa ob : obj) : obj :=
  List.filter
    (fun kv => negb (bool_decide (is_Some (obj_lookup oa kv.1)))) ob.

(** ** Handlebars, the file and the collaborators *)

(** A value or a thrown error. *)
Inductive result (A : Type) :=
| Ok (a : A)
| Throw (e : exn).
Arguments Ok {A} a.
Arguments Throw {A} e.

(** A registered partial: a compiled template, or source text that
    Handlebars compiles on first use (the error branch registers text). *)
Inductive partial (tpl : Type) :=
| PTemplate (t : tpl)
| PSource (s : jsstring).
Arguments PTemplate {tpl} t.
Arguments PSource {tpl} s.

(** A registered helper: the two page helpers close over the page name;
    anything else was loaded before rendering. *)
Inductive helper (hfn : Type) :=
| HIfPage (page : value)
| HUnlessPage (page : value)
| HLoaded (h : hfn).
Arguments HIfPage {hfn} page.
Arguments HUnlessPage {hfn} page.
Arguments HLoaded {hfn} h.

(** [this.Handlebars]: the partial and helper registries. *)
Record hbs (tpl hfn : Type) := Hbs {
  partials : gmap jsstring (partial tpl);
  helpers : gmap jsstring (helper hfn)
}.
Arguments Hbs {tpl hfn} partials helpers.
Arguments partials {tpl hfn} h.
Arguments helpers {tpl hfn} h.

(** What [fm] returns. *)
Record page := Page { attributes : obj; body : jsstring }.

(** What [render] calls and does not define: Handlebars' compiler and the
    compiled templates, the front-matter parser, [strip-bom], Node's [path]
    and [processRoot].  A compiled template is run by [invoke] on the
    registries and a context. *)
Class Collaborators := {
  tpl : Type;
  helper_fn : Type;
  compile : jsstring -> result tpl;
  invoke : tpl -> hbs tpl helper_fn -> value -> result jsstring;
  fm : jsstring -> result page;
  stripBom : jsstring -> jsstring;
  path_relative : jsstring -> jsstring -> jsstring;
  path_dirname : jsstring -> jsstring;
  path_basename : jsstring -> jsstring -> jsstring;
  path_extname : jsstring -> jsstring;
  processRoot : jsstring -> jsstring -> jsstring
}.

(** The Vinyl file.  [contents] is the text of the buffer. *)
Module File.
Record t := Make {
  path : jsstring;
  contents : jsstring;
  data : option obj
}.
End File.

(** [this]: the options, the layouts and the global data.  They are only
    read by [render]. *)
Module This.
Record t `{Collaborators} := Make {
  root : jsstring;
  pageLayouts : option (gmap jsstring value);
  layouts : gmap jsstring tpl;
  data : obj
}.
End This.

Abbreviation handlebars := (hbs tpl helper_fn).

Section Render.
Context `{C : Collaborators}.

(** The calls [render] makes that the properties below speak of: a layout
    template run on the registries of that moment and a context, the stream
    callback [cb(null, file)], and one [exec] of the extraction loop's
    regular expression. *)
Inductive event :=
| LayoutCall (t : tpl) (hb : handlebars) (ctx : value)
| Callback (f : File.t)
| RegexExec.

(** What [render] reads and writes: the file, the Handlebars registries,
    the function-scoped [var layoutTemplate] (still undefined when the
    [catch] block runs after an early throw), and the calls made so far. *)
Record world := World {
  file : File.t;
  Handlebars : handlebars;
  layoutTemplate : option tpl;
  trace : list event
}.

(** State and exceptions. *)
Definition M (A : Type) : Type := world -> result A * world.

Definition ret {A} (a : A) : M A := fun w => (Ok a, w).

Definition bind {A B} (m : M A) (k : A -> M B) : M B :=
  fun w => match m w with
           | (Ok a, w') => k a w'
           | (Throw e, w') => (Throw e, w')
           end.

Definition throw {A} (e : exn) : M A := fun w => (Throw e, w).

Definition lift {A} (r : result A) : M A := fun w => (r, w).

Definition gets {A} (f : world -> A) : M A := fun w => (Ok (f w), w).

Definition modify (f : world -> world) : M unit := fun w => (Ok tt, f w).

(** [try { m } catch (e) { h e }] *)
Definition try_catch {A} (m : M A) (h : exn -> M A) : M A :=
  fun w => match m w with
           | (Ok a, w') => (Ok a, w')
           | (Throw e, w') => h e w'
           end.

(** [... finally { f }]: [f] runs on every exit; the pending result stands
    unless [f] itself throws. *)
Definition finally {A} (m : M A) (f : M unit) : M A :=
  fun w => match m w with
           | (r, w') =>
               match f w' with
               | (Ok _, w'') => (r, w'')
               | (Throw e, w'') => (Throw e, w'')
               end
           end.

End Render.

Notation "'let*' x ':=' m 'in' k" := (bind m (fun x => k))
  (at level 10, x pattern, m at level 100, k at level 200).
Notation "'run' m 'in' k" := (bind m (fun _ => k))
  (at level 10, m at level 100, k at level 200).

(** ** [render] *)

Definition c_newline : N := 10.

Section RenderFunction.
Context `{C : Collaborators}.
Variable this : This.t.

Definition set_Handlebars (hb : handlebars) (w : world) : world :=
  World (file w) hb (layoutTemplate w) (trace w).

(** [this.Handlebars.registerPartial(name, p)]: a plain assignment, an
    earlier partial of that name is overwritten. *)
Definition registerPartial (name : jsstring) (p : partial tpl) : M unit :=
  modify (fun w =>
    set_Handlebars
      (Hbs (<[name := p]> (partials (Handlebars w))) (helpers (Handlebars w)))
      w).

(** [this.Handlebars.registerHelper(name, h)] *)
Definition registerHelper (name : jsstring) (h : helper helper_fn) : M unit :=
  modify (fun w =>
    set_Handlebars
      (Hbs (partials (Handlebars w)) (<[name := h]> (helpers (Handlebars w))))
      w).

(** [file.contents = new Buffer.from(s)] *)
Definition set_contents (s : jsstring) : M unit :=
  modify (fun w =>
    World (File.Make (File.path (file w)) s (File.data (file w)))
          (Handlebars w) (layoutTemplate w) (trace w)).

(** [var layoutTemplate = this.layouts[layout]] *)
Definition set_layoutTemplate (t : option tpl) : M unit :=
  modify (fun w => World (file w) (Handlebars w) t (trace w)).

(** [layoutTemplate(ctx)]: the template runs on the registries as they are
    at the call. *)
Definition call_layout (t : tpl) (ctx : value) : M jsstring :=
  fun w =>
    (invoke t (Handlebars w) ctx,
     World (file w) (Handlebars w) (layoutTemplate w)
           (trace w ++ [LayoutCall t (Handlebars w) ctx])).

(** [cb(null, file)] *)
Definition cb : M unit :=
  modify (fun w =>
    World (file w) (Handlebars w) (layoutTemplate w)
          (trace w ++ [Callback (file w)])).

(** One [exec] of the loop condition. *)
Definition regex_exec : M unit :=
  modify (fun w =>
    World (file w) (Handlebars w) (layoutTemplate w) (trace w ++ [RegexExec])).

(** [partial.indexOf('layout-') === 0] *)
Definition is_layout_partial (name : jsstring) : bool :=
  starts_with (js "layout-") name.

(** [inlineLayoutPartialList], then the [forEach] that deletes each of its
    names from [this.Handlebars.partials]. *)
Definition inlineLayoutPartialList (ps : gmap jsstring (partial tpl))
  : list jsstring :=
  List.filter is_layout_partial (map_to_list ps).*1.

Definition purged (ps : gmap jsstring (partial tpl))
  : gmap jsstring (partial tpl) :=
  foldl (fun m k => delete k m) ps (inlineLayoutPartialList ps).

Definition purge : M unit :=
  modify (fun w =>
    set_Handlebars
      (Hbs (purged (partials (Handlebars w))) (helpers (Handlebars w))) w).

(** The layout of a page:
    [page.attributes.layout ||
     (this.options.pageLayouts && this.options.pageLayouts[basePath]) ||
     'default'].  [pageLayouts], when set, is an object and so truthy. *)
Definition folder_layout (basePath : jsstring) : value :=
  match This.pageLayouts this with
  | None => VUndefined
  | Some pl => default VUndefined (pl !! basePath)
  end.

Definition resolve_layout (attrs : obj) (basePath : jsstring) : value :=
  js_or (js_or (get attrs (js "layout")) (folder_layout basePath))
        (VStr (js "default")).

Definition basePath (f : File.t) : jsstring :=
  path_relative (This.root this) (path_dirname (File.path f)).

(** The page data: globals, then the data of stream plugins when the file
    has any, then the front matter, then the constants. *)
Definition constants (f : File.t) (layout : value) : obj :=
  [ (js "page",
     VStr (path_basename (File.path f) (path_extname (File.path f))));
    (js "layout", layout);
    (js "root", VStr (processRoot (File.path f) (This.root this))) ].

Definition pageData (f : File.t) (p : page) (layout : value) : obj :=
  let pageData := extend [] (This.data this) in
  let pageData :=
    match File.data f with
    | Some d => extend pageData d
    | None => pageData
    end in
  let pageData := extend pageData (attributes p) in
  extend pageData (constants f layout).

Definition msg_no_default : jsstring :=
  js "Panini error: you must have a layout named " ++ [c_dquote]
  ++ js "default" ++ [c_dquote] ++ js ".".

Definition msg_no_layout (layout : value) : jsstring :=
  js "Panini error: no layout named " ++ [c_dquote] ++ toString layout
  ++ [c_dquote] ++ js " exists.".

Definition error_partial : jsstring :=
  js "Panini: template could not be parsed <br> " ++ [c_newline]
  ++ js " <pre>{{error}}</pre>".

Definition raw_error_page (e : exn) : jsstring :=
  js "<!DOCTYPE html><html><head><title>Panini error</title></head><body><pre>"
  ++ exn_toString e ++ js "</pre></body></html>".

Definition msg_rendering (e : exn) : jsstring :=
  js "Panini: rendering error occured." ++ [c_newline] ++ exn_toString e.

(** The [try] block.  [inline_block] is the block that registers the
    inline partials of the page and returns the body without them; the two
    copies of [render] differ only there.  [render_rest] is the block from
    the extraction on, [render_try] the whole of it. *)
Definition render_rest (inline_block : jsstring -> M jsstring)
    (f : File.t) (page : page) (layout : value) (lt : tpl) : M unit :=
  let* body' := inline_block (body page) in
  let* pageTemplate := lift (compile (body' ++ [c_newline])) in
  let pd := pageData f page layout in
  run registerHelper (js "ifpage") (HIfPage (get pd (js "page"))) in
  run registerHelper (js "unlesspage") (HUnlessPage (get pd (js "page"))) in
  run registerPartial (js "body") (PTemplate pageTemplate) in
  let* out := call_layout lt (VObj pd) in
  set_contents out.

Definition layout_error (layout : value) : exn :=
  if strict_eq_str layout (js "default")
  then Error msg_no_default
  else Error (msg_no_layout layout).

Definition render_try (inline_block : jsstring -> M jsstring) : M unit :=
  let* f := gets file in
  let* page := lift (fm (stripBom (File.contents f))) in
  let layout := resolve_layout (attributes page) (basePath f) in
  run set_layoutTemplate (This.layouts this !! toString layout) in
  let* lt :=
    match This.layouts this !! toString layout with
    | Some t => ret t
    | None => throw (layout_error layout)
    end in
  run purge in
  render_rest inline_block f page layout lt.

(** The [catch] block. *)
Definition render_catch (e : exn) : M unit :=
  let* lt := gets layoutTemplate in
  run match lt with
      | Some t =>
          run registerPartial (js "body") (PSource error_partial) in
          let* out := call_layout t (VObj [(js "error", VErr e)]) in
          set_contents out
      | None => set_contents (raw_error_page e)
      end in
  throw (Error (msg_rendering e)).

Definition render_with (inline_block : jsstring -> M jsstring) : M unit :=
  finally (try_catch (render_try inline_block) render_catch) cb.

(** The fast-path test in front of the extraction loop. *)
Definition has_inline (body : jsstring) : bool :=
  includes (js "{{#*inline") body || includes (js "{{~#*inline") body.

(** Registration of one match. *)
Definition register_inline (m : inline_match) : M unit :=
  let* t := lift (compile (im_body m ++ [c_newline])) in
  registerPartial (im_name m) (PTemplate t).

End RenderFunction.

(** ** The extraction block of [lib/render.js] *)

Module RenderJs.

(** The second alternative of the combined expression: the [partial] group.
    Only a double quote may surround the name, and the tags take no [~]. *)
Definition partial_at (s : jsstring) : option inline_match :=
  '(o, r) ← lit (js "{{#*inline") s;
  '(w, r) ← many1 is_space r;
  '(q1, r) ← lit [c_dquote] r;
  '(l, r) ← lit (js "layout-") r;
  '(n, r) ← many is_name_char r;
  '(q2, r) ← lit (c_dquote :: js "}}") r;
  '(b, c, r) ← lazy_until (lit (js "{{/inline}}")) r;
  '(t, _) ← many is_space r;
  Some {| im_whole := o ++ w ++ q1 ++ l ++ n ++ q2 ++ b ++ c ++ t;
          im_name := l ++ n;
          im_body := b |}.

(** What one [exec] of [inlinePartialAndCommentRegex] returns: a comment
    (the [partial] group is undefined) or a partial. *)
Inductive rmatch :=
| MComment (whole : jsstring)
| MPartial (m : inline_match).

Definition rwidth (m : rmatch) : nat :=
  match m with
  | MComment w => length w
  | MPartial m => length (im_whole m)
  end.

(** Alternatives are tried in order at each start position. *)
Definition match_at (s : jsstring) : option rmatch :=
  match comment_at s with
  | Some w => Some (MComment w)
  | None => MPartial <$> partial_at s
  end.

(** Every match the [while] loop sees, in order. *)
Definition matches (body : jsstring) : list rmatch :=
  scan match_at rwidth body O.

Section Block.
Context `{C : Collaborators}.

(** The [while] loop, one turn per [exec]: comments are passed over; a
    partial is compiled and registered, and the first occurrence of its
    text is cut out of [bodyText].  The last [exec] returns [null]. *)
Fixpoint loop (ms : list rmatch) (bodyText : jsstring) : M jsstring :=
  run regex_exec in
  match ms with
  | [] => ret bodyText
  | MComment _ :: ms' => loop ms' bodyText
  | MPartial m :: ms' =>
      run register_inline m in
      loop ms' (replace_first (im_whole m) [] bodyText)
  end.

Definition inline_block (body : jsstring) : M jsstring :=
  if has_inline body then loop (matches body) body else ret body.

Definition render (this : This.t) : M unit :=
  render_with this inline_block.

End Block.

End RenderJs.

(** ** The extraction block of the second copy *)

Module RenderAlt.

(** [inlinePartialRegex]: an optional [~] after the opening braces, either
    quote around the name with a back reference to the opening one, white
    space before the closing braces of the opening tag, and a closing tag
    with optional white space and an optional [~] before its closing
    braces. *)
Definition close_tag : piece :=
  seq (lit (js "{{/inline"))
      (seq (many is_space) (seq (opt_char c_tilde) (lit (js "}}")))).

Definition partial_at (s : jsstring) : option inline_match :=
  '(o, r) ← lit (js "{{") s;
  '(t1, r) ← opt_char c_tilde r;
  '(i, r) ← lit (js "#*inline") r;
  '(w, r) ← many1 is_space r;
  '(q1, r) ← one is_quote r;
  '(l, r) ← lit (js "layout-") r;
  '(n, r) ← many is_name_char r;
  '(q2, r) ← lit q1 r;
  '(w2, r) ← many is_space r;
  '(e, r) ← lit (js "}}") r;
  '(b, c, r) ← lazy_until close_tag r;
  '(t, _) ← many is_space r;
  Some {| im_whole :=
            o ++ t1 ++ i ++ w ++ q1 ++ l ++ n ++ q2 ++ w2 ++ e ++ b ++ c ++ t;
          im_name := l ++ n;
          im_body := b |}.

(** [page.body.replace(commentRegex, '')]: every comment is dropped, the
    search resuming after each one. *)
Fixpoint strip_comments (s : jsstring) (skip : nat) : jsstring :=
  match s with
  | [] => []
  | c :: s' =>
      match skip with
      | S k => strip_comments s' k
      | O =>
          match comment_at s with
          | Some w => strip_comments s' (Nat.pred (length w))
          | None => c :: strip_comments s' O
          end
      end
  end.

(** Every match the [while] loop sees: the loop re-evaluates
    [page.body.replace(commentRegex, '')] on each turn, always to the same
    text since [page.body] is assigned only after the loop, and
    [lastIndex] carries over. *)
Definition matches (body : jsstring) : list inline_match :=
  scan partial_at (fun m => length (im_whole m)) (strip_comments body O) O.

Section Block.
Context `{C : Collaborators}.

(** The [while] loop, one turn per [exec]: each match is compiled and
    registered, and the first occurrence of its text is cut out of
    [bodyText], which starts as the body with its comments.  The last
    [exec] returns [null]. *)
Fixpoint loop (ms : list inline_match) (bodyText : jsstring) : M jsstring :=
  run regex_exec in
  match ms with
  | [] => ret bodyText
  | m :: ms' =>
      run register_inline m in
      loop ms' (replace_first (im_whole m) [] bodyText)
  end.

Definition inline_block (body : jsstring) : M jsstring :=
  if has_inline body then loop (matches body) body else ret body.

Definition render (this : This.t) : M unit :=
  render_with this inline_block.

End Block.

End RenderAlt.

(** ** A small instance of the collaborators

    Enough of an engine to run [render] on concrete pages: a template is its
    source text; a layout may pull in the partials [body] and [layout-nav]
    and print the [error] of its context; a template that mentions the
    helper [boom] fails when it runs, one that opens a block [bad] fails to
    compile. *)

Module Demo.

Definition demo_compile (s : jsstring) : result jsstring :=
  if includes (js "{{#bad") s
  then Throw (Exn (js "Error") (js "Parse error"))
  else Ok s.

Definition partial_text (p : partial jsstring) : jsstring :=
  match p with
  | PTemplate s => s
  | PSource s => s
  end.

Definition marker (name : jsstring) : jsstring :=
  js "{{> " ++ name ++ js "}}".

Definition subst_partial (hb : hbs jsstring unit) (name t : jsstring)
  : result jsstring :=
  if includes (marker name) t then
    match partials hb !! name with
    | Some p => Ok (replace_first (marker name) (partial_text p) t)
    | None => Throw (Error (js "The partial " ++ name ++ js " could not be found"))
    end
  else Ok t.

Definition demo_invoke (t : jsstring) (hb : hbs jsstring unit) (ctx : value)
  : result jsstring :=
  match subst_partial hb (js "body") t with
  | Throw e => Throw e
  | Ok t1 =>
      match subst_partial hb (js "layout-nav") t1 with
      | Throw e => Throw e
      | Ok t2 =>
          if includes (js "{{boom}}") t2
          then Throw (Error (js "Missing helper: boom"))
          else
            Ok (replace_first (js "{{error}}")
                  (match ctx with
                   | VObj o => toString (get o (js "error"))
                   | _ => []
                   end) t2)
      end
  end.

(** Front matter of one line, [layout: NAME], or none. *)
Definition demo_fm (s : jsstring) : result page :=
  if starts_with (js "---!") s
  then Throw (Exn (js "YAMLException") (js "bad front matter"))
  else
    match strip_prefix (js "layout: ") s with
    | Some r =>
        let '(name, rest) := span (fun c => negb (c =? c_newline)) r in
        Ok (Page [(js "layout", VStr name)] (List.tl rest))
    | None => Ok (Page [] s)
    end.

Definition demo_stripBom (s : jsstring) : jsstring :=
  match s with
  | 65279 :: s' => s'
  | _ => s
  end.

(** Paths of the form [root/dir/name.ext]. *)
Fixpoint split_last (c : N) (s : jsstring) : option (jsstring * jsstring) :=
  match s with
  | [] => None
  | x :: s' =>
      match split_last c s' with
      | Some (a, b) => Some (x :: a, b)
      | None => if x =? c then Some ([], s') else None
      end
  end.

Definition demo_dirname (p : jsstring) : jsstring :=
  match split_last 47 p with
  | Some (d, _) => d
  | None => js "."
  end.

Definition demo_relative (from to : jsstring) : jsstring :=
  match strip_prefix from to with
  | Some (47 :: r) => r
  | _ => []
  end.

Definition demo_extname (p : jsstring) : jsstring :=
  match split_last 46 p with
  | Some (_, e) => 46 :: e
  | None => []
  end.

Definition demo_basename (p ext : jsstring) : jsstring :=
  let name := match split_last 47 p with
              | Some (_, n) => n
              | None => p
              end in
  match split_last 46 name with
  | Some (n, e) => if bool_decide (46 :: e = ext) then n else name
  | None => name
  end.

Definition demo_processRoot (p root : jsstring) : jsstring :=
  match demo_relative root (demo_dirname p) with
  | [] => []
  | _ => js "../"
  end.

#[export] Instance demo : Collaborators := {|
  tpl := jsstring;
  helper_fn := unit;
  compile := demo_compile;
  invoke := demo_invoke;
  fm := demo_fm;
  stripBom := demo_stripBom;
  path_relative := demo_relative;
  path_dirname := demo_dirname;
  path_basename := demo_basename;
  path_extname := demo_extname;
  processRoot := demo_processRoot
|}.

(** A site with the layouts [default], [about], [0] and [broken] (which
    calls the helper that is not there), the folder layout [about] for the
    folder [about], and the global data [{site: 'demo'}]. *)
Definition site : This.t :=
  This.Make _ (js "src/pages")
    (Some {[ js "about" := VStr (js "about") ]})
    (<[js "default" := js "<h1>D</h1>{{> body}}"]>
       (<[js "about" := js "<h1>A</h1>{{> layout-nav}}|{{> body}}"]>
          (<[js "0" := js "<h1>0</h1>{{> body}}"]>
             (<[js "broken" := js "<h1>{{boom}}</h1>{{> body}}"]> ∅))))
    [(js "site", VStr (js "demo"))].

(** The same site without its [default] layout. *)
Definition site_no_default : This.t :=
  This.Make _ (js "src/pages") None
    (<[js "about" := js "<h1>A</h1>{{> layout-nav}}|{{> body}}"]> ∅)
    [(js "site", VStr (js "demo"))].

Definition index_page (contents : jsstring) : File.t :=
  File.Make (js "src/pages/index.html") contents None.

Definition about_page (contents : jsstring) : File.t :=
  File.Make (js "src/pages/about/team.html") contents None.

(** [{{#*inline "name"}}text{{/inline}}] *)
Definition decl (name text : jsstring) : jsstring :=
  js "{{#*inline " ++ [c_dquote] ++ name ++ [c_dquote] ++ js "}}" ++ text
  ++ js "{{/inline}}".

(** Registries that hold the partial [layout-nav] of an earlier page. *)
Definition nav_partials : @hbs (@tpl demo) (@helper_fn demo) :=
  Hbs {[ js "layout-nav" := PTemplate (js "<nav/>") ]} ∅.

Definition no_partials : @hbs (@tpl demo) (@helper_fn demo) := Hbs ∅ ∅.

End Demo.

(** ** The two copies, and a call of [render] *)

Inductive copy :=
| LibRenderJs
| SecondCopy.

Definition inline_block_of `{C : Collaborators} (c : copy)
  : jsstring -> M jsstring :=
  match c with
  | LibRenderJs => RenderJs.inline_block
  | SecondCopy => RenderAlt.inline_block
  end.

Definition render_of `{C : Collaborators} (c : copy) (this : This.t) : M unit :=
  match c with
  | LibRenderJs => RenderJs.render this
  | SecondCopy => RenderAlt.render this
  end.

(** The names of the inline partials the loop of a copy finds in a body. *)
Definition declared (c : copy) (body : jsstring) : list jsstring :=
  match c with
  | LibRenderJs =>
      omap (fun m => match m with
                     | RenderJs.MPartial m => Some (im_name m)
                     | RenderJs.MComment _ => None
                     end) (RenderJs.matches body)
  | SecondCopy => im_name <$> RenderAlt.matches body
  end.

(** The world at the start of a call: [layoutTemplate] is not assigned yet
    and nothing has been called. *)
Definition start `{C : Collaborators} (f : File.t) (hb : handlebars) : world :=
  World f hb None [].

(** The calls of the stream callback in a trace. *)
Definition callbacks `{C : Collaborators} (tr : list event) : nat :=
  length (List.filter (fun ev => match ev with Callback _ => true | _ => false end) tr).

(** ** What a layout can see *)

(** The [layout-] partials of the registries are all among [names]. *)
Definition only_declared `{C : Collaborators}
    (names : list jsstring) (hb : handlebars) : Prop :=
  forall k, is_layout_partial k = true -> is_Some (partials hb !! k) ->
    k ∈ names.

(** Every run of a layout template in the trace saw registries whose
    [layout-] partials are all among [names]. *)
Definition layout_calls_see `{C : Collaborators}
    (names : list jsstring) (tr : list event) : Prop :=
  Forall (fun ev => match ev with
                    | LayoutCall _ hb _ => only_declared names hb
                    | _ => True
                    end) tr.

(** The registries when the layout runs in the [try] block. *)
Definition hb_at_render `{C : Collaborators} (w : world) (pt : tpl) (pd : obj) : handlebars :=
  Hbs (<[js "body" := PTemplate pt]> (partials (Handlebars w)))
      (<[js "unlesspage" := HUnlessPage (get pd (js "page"))]>
         (<[js "ifpage" := HIfPage (get pd (js "page"))]>
            (helpers (Handlebars w)))).

(** The registries when the layout runs again in the [catch] block. *)
Definition hb_at_recover `{C : Collaborators} (w : world) : handlebars :=
  Hbs (<[js "body" := PSource error_partial]> (partials (Handlebars w)))
      (helpers (Handlebars w)).

Definition with_contents (g : File.t) (s : jsstring) : File.t :=
  File.Make (File.path g) s (File.data g).

(** A computation that never calls the stream callback. *)
Definition quiet `{C : Collaborators} {A} (m : M A) : Prop :=
  forall w, callbacks (trace (m w).2) = callbacks (trace w).

(** ** Shapes of text for the extraction theorems *)

(** The text [r] does not go on with a character of the class. *)
Definition stops (P : N -> bool) (r : jsstring) : Prop :=
  match r with
  | [] => True
  | c :: _ => P c = false
  end.

(** An optional [~]. *)
Definition tilde (b : bool) : jsstring := if b then [c_tilde] else [].

Definition all_in (P : N -> bool) (s : jsstring) : Prop :=
  Forall (fun c => P c = true) s.

(** What the extraction block may do to the world: it registers partials
    under the names in [names], runs the regular expression, and leaves the
    file, [layoutTemplate] and the helpers alone. *)
Definition block_effect `{C : Collaborators} (names : list jsstring) (w w' : world) : Prop :=
  file w' = file w /\
  layoutTemplate w' = layoutTemplate w /\
  helpers (Handlebars w') = helpers (Handlebars w) /\
  (exists tr, trace w' = trace w ++ tr /\ Forall (fun ev => ev = RegexExec) tr) /\
  (forall k, k ∉ names ->
     partials (Handlebars w') !! k = partials (Handlebars w) !! k).

(** Case analysis on the next comparison of code units. *)
Ltac step_eqb :=
  match goal with
  | |- context [N.eqb ?a ?b] =>
      destruct (N.eqb_spec a b); [try discriminate; subst|]
  | H : context [N.eqb ?a ?b] |- _ =>
      destruct (N.eqb_spec a b); [try discriminate; subst|]
  end.

Import Demo.

(** The inline partials the loop of a copy finds in a body, in order. *)
Definition js_partials (ms : list RenderJs.rmatch) : list inline_match :=
  omap (fun m => match m with
                 | RenderJs.MPartial m => Some m
                 | RenderJs.MComment _ => None
                 end) ms.

Definition partial_matches (c : copy) (body : jsstring) : list inline_match :=
  match c with
  | LibRenderJs => js_partials (RenderJs.matches body)
  | SecondCopy => RenderAlt.matches body
  end.

(** The world after one turn of the loop that registered [m], compiled
    to [t]. *)
Definition registered_world `{C : Collaborators}
    (m : inline_match) (t : tpl) (w : world) : world :=
  World (file w)
    (Hbs (<[im_name m := PTemplate t]> (partials (Handlebars w)))
         (helpers (Handlebars w)))
    (layoutTemplate w) (trace w ++ [RegexExec]).

(** The body after the loop: for each match in turn, the first occurrence
    of its text is cut out. *)
Definition cut_all (ms : list inline_match) (b : jsstring) : jsstring :=
  foldl (fun b m => replace_first (im_whole m) [] b) b ms.

(** No suffix of [a ++ r] that starts inside [a] is matched by [f]. *)
Fixpoint no_match_in {X : Type} (f : jsstring -> option X)
    (a r : jsstring) : Prop :=
  match a with
  | [] => True
  | x :: a' => f (x :: a' ++ r) = None /\ no_match_in f a' r
  end.

(** A text without an opening brace. *)
Definition brace_free (s : jsstring) : Prop := Forall (fun c => c <> 123) s.


(** ** One call of [render] in closed form *)

(** The runs of a layout template in a trace. *)
Definition layout_calls `{C : Collaborators} (tr : list event) : nat :=
  length (List.filter (fun ev => match ev with
                                 | LayoutCall _ _ _ => true
                                 | _ => false
                                 end) tr).

(** The [catch] block without a layout template, then [finally]. *)
Definition raw_outcome `{C : Collaborators}
    (e : exn) (f : File.t) (hb : handlebars) : result unit * world :=
  (Throw (Error (msg_rendering e)),
   World (with_contents f (raw_error_page e)) hb None
         [Callback (with_contents f (raw_error_page e))]).

(** The [catch] block with the layout template [t], then [finally]. *)
Definition recover `{C : Collaborators}
    (e : exn) (w : world) (t : tpl) : result unit * world :=
  let ctx := VObj [(js "error", VErr e)] in
  let hb1 := hb_at_recover w in
  let tr := trace w ++ [LayoutCall t hb1 ctx] in
  match invoke t hb1 ctx with
  | Ok s =>
      (Throw (Error (msg_rendering e)),
       World (with_contents (file w) s) hb1 (Some t)
             (tr ++ [Callback (with_contents (file w) s)]))
  | Throw e2 =>
      (Throw e2, World (file w) hb1 (Some t) (tr ++ [Callback (file w)]))
  end.

(** Every path through [render], written out. *)
Definition render_paths `{C : Collaborators}
    (c : copy) (this : This.t) (f : File.t) (hb : handlebars)
  : result unit * world :=
  match fm (stripBom (File.contents f)) with
  | Throw e => raw_outcome e f hb
  | Ok p =>
      let layout := resolve_layout this (attributes p) (basePath this f) in
      match This.layouts this !! toString layout with
      | None => raw_outcome (layout_error layout) f hb
      | Some t =>
          let r3 :=
            inline_block_of c (body p)
              (World f (Hbs (purged (partials hb)) (helpers hb)) (Some t) []) in
          match r3.1 with
          | Throw e => recover e r3.2 t
          | Ok b' =>
              match compile (b' ++ [c_newline]) with
              | Throw e => recover e r3.2 t
              | Ok pt =>
                  let pd := pageData this f p layout in
                  let hb4 := hb_at_render r3.2 pt pd in
                  let tr := trace r3.2 ++ [LayoutCall t hb4 (VObj pd)] in
                  match invoke t hb4 (VObj pd) with
                  | Ok s =>
                      (Ok tt,
                       World (with_contents f s) hb4 (Some t)
                             (tr ++ [Callback (with_contents f s)]))
                  | Throw e => recover e (World f hb4 (Some t) tr) t
                  end
              end
          end
      end
  end.

(** ** The layers of the page data *)

(** A mapping, which [extend] merges key by key; every other value of the
    later layer replaces the earlier one. *)
Definition is_object (v : value) : bool :=
  match v with
  | VObj _ => true
  | _ => false
  end.

(** One key of [extend a b], from what the two layers hold under it. *)
Definition merge_opt (a b : option value) : option value :=
  match a, b with
  | Some va, Some vb => Some (merge_value va vb)
  | Some va, None => Some va
  | None, r => r
  end.

(** ** The text the loop reads *)

(** [lib/render.js] runs its expression on the body, the second copy on the
    body without its comments. *)
Definition scanned (c : copy) (body : jsstring) : jsstring :=
  match c with
  | LibRenderJs => body
  | SecondCopy => RenderAlt.strip_comments body O
  end.

(** ** One declaration *)

(** The opening tag of a declaration in double quotes, without trim
    markers. *)
Definition opening_tag (ws1 name : jsstring) : jsstring :=
  js "{{#*inline" ++ ws1 ++ [c_dquote] ++ js "layout-" ++ name
  ++ [c_dquote] ++ js "}}".

(** The text of such a declaration, with the white space behind it. *)
Definition plain_declaration (ws1 name text ws4 : jsstring) : jsstring :=
  opening_tag ws1 name ++ text ++ js "{{/inline}}" ++ ws4.

(** One turn of the loop for the match [m], and the last [exec]: what is
    returned when [rest] is the text that is left. *)
Definition one_match_outcome `{C : Collaborators}
    (m : inline_match) (rest : jsstring) (w : world)
  : result jsstring * world :=
  match compile (im_body m ++ [c_newline]) with
  | Ok t =>
      (Ok rest,
       World (file w)
         (Hbs (<[im_name m := PTemplate t]> (partials (Handlebars w)))
              (helpers (Handlebars w)))
         (layoutTemplate w) (trace w ++ [RegexExec; RegexExec]))
  | Throw e =>
      (Throw e,
       World (file w) (Handlebars w) (layoutTemplate w)
             (trace w ++ [RegexExec]))
  end.

(** ** The loop in closed form *)

(** The declarations [ms] taken in turn: each text is compiled and
    registered under its name and the first occurrence of the declaration is
    cut from the body, until a text does not compile. *)
Fixpoint run_matches `{C : Collaborators}
    (ms : list inline_match) (b : jsstring)
    (ps : gmap jsstring (partial tpl))
  : result jsstring * gmap jsstring (partial tpl) :=
  match ms with
  | [] => (Ok b, ps)
  | m :: ms' =>
      match compile (im_body m ++ [c_newline]) with
      | Ok t =>
          run_matches ms' (replace_first (im_whole m) [] b)
            (<[im_name m := PTemplate t]> ps)
      | Throw e => (Throw e, ps)
      end
  end.

(** One step through a chain of pieces: the piece matched, or the whole
    expression did not. *)
Ltac bind_step E :=
  match goal with
  | |- context [mbind _ ?x] =>
      destruct x as [[? ?]|] eqn:E; cbn [mbind option_bind];
      [|intros; discriminate]
  end.

(** * Properties *)

(** ** Strings *)

Lemma strip_prefix_spec (p s r : jsstring) :
  strip_prefix p s = Some r <-> s = p ++ r.
Proof.
  revert s. induction p as [|a p IH]; intros s; simpl.
  - split; congruence.
  - destruct s as [|b s]; [split; discriminate|].
    destruct (N.eqb_spec a b) as [->|Hne].
    + rewrite IH. split; congruence.
    + split; [discriminate|]. intros [= ? ?]. congruence.
Qed.

Lemma strip_prefix_app (p r : jsstring) : strip_prefix p (p ++ r) = Some r.
Proof. by apply strip_prefix_spec. Qed.

Lemma starts_with_spec (p s : jsstring) :
  starts_with p s = true <-> exists r, s = p ++ r.
Proof.
  unfold starts_with. destruct (strip_prefix p s) as [r|] eqn:E.
  - apply strip_prefix_spec in E. split; eauto.
  - split; [discriminate|]. intros [r ->].
    rewrite strip_prefix_app in E. discriminate.
Qed.

(** [indexOf] finds exactly the substrings. *)
Lemma includes_spec (p s : jsstring) :
  includes p s = true <-> exists a b, s = a ++ p ++ b.
Proof.
  induction s as [|c s IH].
  - simpl. rewrite orb_false_r, starts_with_spec. split.
    + intros [r ->]. by exists [], r.
    + intros (a & b & E). destruct a; [by exists b|discriminate].
  - cbn [includes]. rewrite orb_true_iff, starts_with_spec, IH. split.
    + intros [[r ->]|(a & b & ->)]; [by exists [], r|by exists (c :: a), b].
    + intros (a & b & E). destruct a as [|x a]; [left; by exists b|].
      right. injection E as -> ->. by exists a, b.
Qed.

Lemma has_inline_spec (body : jsstring) :
  has_inline body = false <->
  (~ exists a b, body = a ++ js "{{#*inline" ++ b) /\
  (~ exists a b, body = a ++ js "{{~#*inline" ++ b).
Proof.
  unfold has_inline. rewrite orb_false_iff, <- !includes_spec.
  split; intros [H1 H2].
  - rewrite H1, H2. split; discriminate.
  - split; apply not_true_is_false; assumption.
Qed.

(** ** The fast path of the extraction block *)

(** C8: a body that holds neither [{{#*inline] nor [{{~#*inline] goes through
    the extraction block of either copy unchanged: the body comes back as it
    was and the world is the same, so nothing was registered and, the trace
    being part of the world, the regular expression was never run. *)
Theorem C8_fast_path_noop `{C : Collaborators} (body : jsstring) (w : world) :
  (~ exists a b, body = a ++ js "{{#*inline" ++ b) ->
  (~ exists a b, body = a ++ js "{{~#*inline" ++ b) ->
  RenderJs.inline_block body w = (Ok body, w) /\
  RenderAlt.inline_block body w = (Ok body, w).
Proof.
  intros H1 H2.
  assert (E : has_inline body = false) by (by apply has_inline_spec).
  unfold RenderJs.inline_block, RenderAlt.inline_block. rewrite E. done.
Qed.

(** ** Layout resolution *)

Section Layout.
Context `{C : Collaborators}.

Lemma resolve_layout_cases (this : This.t) (attrs : obj) (bp : jsstring) :
  resolve_layout this attrs bp =
    if truthy (get attrs (js "layout")) then get attrs (js "layout")
    else if truthy (folder_layout this bp) then folder_layout this bp
    else VStr (js "default").
Proof.
  unfold resolve_layout, js_or.
  destruct (truthy (get attrs (js "layout"))) eqn:E1.
  - by rewrite E1.
  - by destruct (truthy (folder_layout this bp)) eqn:E2; rewrite ?E2.
Qed.


(** C7, as it holds: the first truthy layer wins.  A truthy [layout] value of
    the front matter is the layout, whatever the folder mapping says;
    otherwise (the key is not there, or its value is not truthy) a truthy
    folder entry for the directory of the page, relative to the root, is the
    layout; otherwise (there is no mapping, or it has no entry for the
    directory, or the entry is not truthy) the layout is ["default"].  In
    particular a page with no [layout] key and no folder entry gets
    ["default"]. *)
Theorem C7_layout_precedence (this : This.t) (f : File.t) (attrs : obj) :
  (forall v, obj_lookup attrs (js "layout") = Some v -> truthy v = true ->
     resolve_layout this attrs (basePath this f) = v) /\
  (forall pl v,
     (obj_lookup attrs (js "layout") = None \/
      exists u, obj_lookup attrs (js "layout") = Some u /\ truthy u = false) ->
     This.pageLayouts this = Some pl -> pl !! basePath this f = Some v ->
     truthy v = true ->
     resolve_layout this attrs (basePath this f) = v) /\
  ((obj_lookup attrs (js "layout") = None \/
    exists u, obj_lookup attrs (js "layout") = Some u /\ truthy u = false) ->
   (This.pageLayouts this = None \/
    exists pl, This.pageLayouts this = Some pl /\
      (pl !! basePath this f = None \/
       exists v, pl !! basePath this f = Some v /\ truthy v = false)) ->
   resolve_layout this attrs (basePath this f) = VStr (js "default")) /\
  (obj_lookup attrs (js "layout") = None ->
   (This.pageLayouts this = None \/
    exists pl, This.pageLayouts this = Some pl /\ pl !! basePath this f = None) ->
   resolve_layout this attrs (basePath this f) = VStr (js "default")).
Proof.
  assert (Hfalsy :
    (obj_lookup attrs (js "layout") = None \/
     exists u, obj_lookup attrs (js "layout") = Some u /\ truthy u = false) ->
    truthy (get attrs (js "layout")) = false).
  { unfold get. by intros [->|(u & -> & Hu)]. }
  assert (Hdefault :
    (obj_lookup attrs (js "layout") = None \/
     exists u, obj_lookup attrs (js "layout") = Some u /\ truthy u = false) ->
    (This.pageLayouts this = None \/
     exists pl, This.pageLayouts this = Some pl /\
       (pl !! basePath this f = None \/
        exists v, pl !! basePath this f = Some v /\ truthy v = false)) ->
    resolve_layout this attrs (basePath this f) = VStr (js "default")).
  { intros Hn Hp. rewrite resolve_layout_cases, (Hfalsy Hn).
    unfold folder_layout.
    destruct Hp as [->|(pl & -> & [->|(v & -> & Hv)])]; simpl;
      [reflexivity|reflexivity|by rewrite Hv]. }
  split; [|split; [|split]].
  - intros v Hv Ht. rewrite resolve_layout_cases. unfold get.
    rewrite Hv. simpl. by rewrite Ht.
  - intros pl v Hn Hpl Hv Ht. rewrite resolve_layout_cases, (Hfalsy Hn).
    unfold folder_layout. rewrite Hpl, Hv. simpl. by rewrite Ht.
  - exact Hdefault.
  - intros Hn Hp. apply Hdefault; [by left|].
    destruct Hp as [?|(pl & ? & ?)]; [by left|right]. exists pl. split; [done|by left].
Qed.

End Layout.

(** ** The page data *)

Lemma extend_eq (a b : obj) : extend a b = merge_keys a b ++ fresh_keys a b.
Proof.
  unfold extend, fresh_keys. simpl. f_equal.
  induction a as [|[k va] a IH]; simpl; [done|]. by rewrite IH.
Qed.

Lemma obj_lookup_app (a b : obj) (k : jsstring) :
  obj_lookup (a ++ b) k =
    match obj_lookup a k with
    | Some v => Some v
    | None => obj_lookup b k
    end.
Proof.
  induction a as [|[k' v] a IH]; simpl; [done|]. by case_decide.
Qed.

Lemma obj_lookup_merge_keys (a b : obj) (k : jsstring) :
  obj_lookup (merge_keys a b) k =
    match obj_lookup a k with
    | Some va =>
        Some (match obj_lookup b k with
              | Some vb => merge_value va vb
              | None => va
              end)
    | None => None
    end.
Proof.
  induction a as [|[k' v] a IH]; simpl; [done|].
  case_decide; [by subst|done].
Qed.

Lemma obj_lookup_fresh_keys (a b : obj) (k : jsstring) :
  obj_lookup a k = None -> obj_lookup (fresh_keys a b) k = obj_lookup b k.
Proof.
  intros Ha. unfold fresh_keys.
  induction b as [|[k' v] b IH]; simpl; [done|].
  case_bool_decide as Hk; simpl.
  - case_decide; [|done]. subst. rewrite Ha in Hk. by destruct Hk.
  - by rewrite IH.
Qed.

(** A later key wins; where both layers have the key the values are merged. *)
Lemma obj_lookup_extend (a b : obj) (k : jsstring) :
  obj_lookup (extend a b) k =
    match obj_lookup a k, obj_lookup b k with
    | Some va, Some vb => Some (merge_value va vb)
    | Some va, None => Some va
    | None, r => r
    end.
Proof.
  rewrite extend_eq, obj_lookup_app, obj_lookup_merge_keys.
  destruct (obj_lookup a k) eqn:Ha.
  - by destruct (obj_lookup b k).
  - rewrite obj_lookup_fresh_keys by done. by destruct (obj_lookup b k).
Qed.

Lemma merge_keys_nil_r (a : obj) : merge_keys a [] = a.
Proof. induction a as [|[k v] a IH]; simpl; [done|]. by rewrite IH. Qed.

Lemma extend_nil_r (a : obj) : extend a [] = a.
Proof.
  rewrite extend_eq, merge_keys_nil_r. unfold fresh_keys. simpl.
  apply app_nil_r.
Qed.

Lemma merge_value_str (a : value) (s : jsstring) :
  merge_value a (VStr s) = VStr s.
Proof. by destruct a. Qed.

(** C3: the page data is the deep merge, in this order, of the empty object,
    the global data, the data of the stream plugins (nothing when the file
    has none), the front matter and the constants [page], [layout] and
    [root]; and [page] in it is always the base name of the file without
    its extension, whatever the earlier layers hold under [page]. *)
Theorem C3_page_data_order `{C : Collaborators}
    (this : This.t) (f : File.t) (p : page) (layout : value) :
  pageData this f p layout =
    extend
      (extend
         (extend (extend [] (This.data this)) (default [] (File.data f)))
         (attributes p))
      [ (js "page",
         VStr (path_basename (File.path f) (path_extname (File.path f))));
        (js "layout", layout);
        (js "root", VStr (processRoot (File.path f) (This.root this))) ] /\
  get (pageData this f p layout) (js "page") =
    VStr (path_basename (File.path f) (path_extname (File.path f))).
Proof.
  split.
  - unfold pageData, constants.
    destruct (File.data f); simpl; [done|]. by rewrite extend_nil_r.
  - unfold pageData, get. rewrite obj_lookup_extend.
    match goal with |- context [obj_lookup ?x (js "page")] =>
      destruct (obj_lookup x (js "page")) end.
    + simpl. by rewrite merge_value_str.
    + reflexivity.
Qed.

(** ** The purge and the extraction loop *)

Section Registry.
Context `{C : Collaborators}.

Lemma foldl_delete_lookup (ks : list jsstring)
    (m : gmap jsstring (partial tpl)) (k : jsstring) :
  foldl (fun m k => delete k m) m ks !! k =
    if decide (k ∈ ks) then None else m !! k.
Proof.
  revert m. induction ks as [|k' ks IH]; intros m; cbn [foldl].
  - case_decide as H; [by apply elem_of_nil in H|done].
  - rewrite IH. destruct (decide (k = k')) as [->|Hne].
    + rewrite lookup_delete_eq, (decide_True (P := k' ∈ k' :: ks)) by (by left).
      by case_decide.
    + rewrite lookup_delete_ne by done.
      destruct (decide (k ∈ ks)) as [Hin|Hnin].
      * by rewrite decide_True by (by right).
      * rewrite decide_False; [done|]. by intros [?|?]%elem_of_cons.
Qed.

(** The purge deletes every [layout-] partial and nothing else. *)
Lemma purged_lookup (ps : gmap jsstring (partial tpl)) (k : jsstring) :
  purged ps !! k = if is_layout_partial k then None else ps !! k.
Proof.
  unfold purged. rewrite foldl_delete_lookup.
  unfold inlineLayoutPartialList.
  destruct (is_layout_partial k) eqn:Hk.
  - destruct (ps !! k) as [v|] eqn:Hv; [|by case_decide].
    rewrite decide_True; [done|].
    apply list_elem_of_In, filter_In. split; [|done].
    apply list_elem_of_In, list_elem_of_fmap. exists (k, v).
    split; [done|]. by apply elem_of_map_to_list.
  - rewrite decide_False; [done|].
    intros [_ Hk']%list_elem_of_In%filter_In. congruence.
Qed.

Lemma block_effect_refl (names : list jsstring) (w : world) :
  block_effect names w w.
Proof.
  repeat split; try done. exists []. by rewrite app_nil_r.
Qed.

Lemma block_effect_trans (n1 n2 names : list jsstring) (w1 w2 w3 : world) :
  n1 ⊆ names -> n2 ⊆ names ->
  block_effect n1 w1 w2 -> block_effect n2 w2 w3 -> block_effect names w1 w3.
Proof.
  intros S1 S2 (F1 & L1 & H1 & (t1 & T1 & A1) & P1)
    (F2 & L2 & H2 & (t2 & T2 & A2) & P2).
  repeat split; try congruence.
  - exists (t1 ++ t2). rewrite T2, T1, app_assoc. split; [done|].
    by apply Forall_app.
  - intros k Hk. rewrite P2, P1; [done|..]; intros ?; apply Hk; auto.
Qed.

Lemma regex_exec_effect (w : world) :
  block_effect [] w (regex_exec w).2.
Proof.
  repeat split; try done. exists [RegexExec]. split; [done|].
  by repeat constructor.
Qed.

Lemma register_inline_effect (m : inline_match) (w : world) :
  block_effect [im_name m] w (register_inline m w).2.
Proof.
  unfold register_inline, bind, lift.
  destruct (compile _) as [t|e]; simpl; [|apply block_effect_refl].
  repeat split; try done.
  - exists []. by rewrite app_nil_r.
  - intros k Hk. apply lookup_insert_ne. intros E. apply Hk.
    by apply list_elem_of_singleton.
Qed.

Lemma bind_snd {A B} (m : M A) (k : A -> M B) (w : world) :
  (bind m k w).2 =
    match (m w).1 with
    | Ok a => (k a (m w).2).2
    | Throw _ => (m w).2
    end.
Proof. unfold bind. by destruct (m w) as [[a|e] w']. Qed.

Lemma bind_effect {A B} (n1 n2 names : list jsstring)
    (m : M A) (k : A -> M B) (w : world) :
  n1 ⊆ names -> n2 ⊆ names ->
  block_effect n1 w (m w).2 ->
  (forall a w', block_effect n2 w' (k a w').2) ->
  block_effect names w (bind m k w).2.
Proof.
  intros S1 S2 Hm Hk. rewrite bind_snd. destruct (m w).1.
  - eapply block_effect_trans; [exact S1|exact S2|exact Hm|apply Hk].
  - eapply block_effect_trans;
      [exact S1|apply list_subseteq_nil|exact Hm|apply block_effect_refl].
Qed.

Lemma loop_js_effect (ms : list RenderJs.rmatch) (b : jsstring) (w : world) :
  block_effect
    (omap (fun m => match m with
                    | RenderJs.MPartial m => Some (im_name m)
                    | RenderJs.MComment _ => None
                    end) ms)
    w (RenderJs.loop ms b w).2.
Proof.
  revert b w. induction ms as [|[c|m] ms IH]; intros b w; cbn [RenderJs.loop omap].
  - apply regex_exec_effect.
  - eapply bind_effect; [apply list_subseteq_nil|done|apply regex_exec_effect|].
    intros _ w'. apply IH.
  - eapply bind_effect; [apply list_subseteq_nil|done|apply regex_exec_effect|].
    intros _ w1.
    eapply (bind_effect [im_name m]); [| |apply register_inline_effect|].
    + intros x ->%list_elem_of_singleton. by left.
    + intros x Hx. right. exact Hx.
    + intros _ w2. apply IH.
Qed.

Lemma loop_alt_effect (ms : list inline_match) (b : jsstring) (w : world) :
  block_effect (im_name <$> ms) w (RenderAlt.loop ms b w).2.
Proof.
  revert b w. induction ms as [|m ms IH]; intros b w; cbn [RenderAlt.loop fmap list_fmap].
  - apply regex_exec_effect.
  - eapply bind_effect; [apply list_subseteq_nil|done|apply regex_exec_effect|].
    intros _ w1.
    eapply (bind_effect [im_name m]); [| |apply register_inline_effect|].
    + intros x ->%list_elem_of_singleton. by left.
    + intros x Hx. right. exact Hx.
    + intros _ w2. apply IH.
Qed.

(** The extraction block of either copy registers only what it declares. *)
Lemma inline_block_effect (c : copy) (b : jsstring) (w : world) :
  block_effect (declared c b) w (inline_block_of c b w).2.
Proof.
  destruct c; simpl;
    unfold RenderJs.inline_block, RenderAlt.inline_block;
    destruct (has_inline b); try apply block_effect_refl.
  - apply loop_js_effect.
  - apply loop_alt_effect.
Qed.

End Registry.

(** ** One call of [render], step by step *)

Section Runs.
Context `{C : Collaborators}.
Variable this : This.t.
Variable c : copy.
Variable f : File.t.
Variable hb : handlebars.

Lemma render_try_fm_throws (e : exn) :
  fm (stripBom (File.contents f)) = Throw e ->
  render_try this (inline_block_of c) (start f hb) = (Throw e, start f hb).
Proof.
  intros E. unfold render_try, bind, gets, lift. simpl. by rewrite E.
Qed.

Lemma render_try_no_layout (p : page) :
  fm (stripBom (File.contents f)) = Ok p ->
  This.layouts this
    !! toString (resolve_layout this (attributes p) (basePath this f)) = None ->
  render_try this (inline_block_of c) (start f hb) =
    (Throw (layout_error (resolve_layout this (attributes p) (basePath this f))),
     start f hb).
Proof.
  intros E L. unfold render_try, bind, gets, lift. simpl. rewrite E, L.
  reflexivity.
Qed.

Lemma render_try_layout (p : page) (t : tpl) :
  fm (stripBom (File.contents f)) = Ok p ->
  This.layouts this
    !! toString (resolve_layout this (attributes p) (basePath this f)) = Some t ->
  render_try this (inline_block_of c) (start f hb) =
    render_rest this (inline_block_of c) f p
      (resolve_layout this (attributes p) (basePath this f)) t
      (World f (Hbs (purged (partials hb)) (helpers hb)) (Some t) []).
Proof.
  intros E L. unfold render_try, bind, gets, lift. simpl. rewrite E, L.
  reflexivity.
Qed.

(** From the extraction on: either the block or the compilation of the body
    throws and the layout is never run, or the layout runs once, on the
    registries the block left plus [body] and the two page helpers. *)
Lemma render_rest_cases (p : page) (layout : value) (t : tpl) (w : world) :
  let w3 := (inline_block_of c (body p) w).2 in
  (exists e, render_rest this (inline_block_of c) f p layout t w = (Throw e, w3))
  \/
  (exists pt,
     let pd := pageData this f p layout in
     let hb4 := hb_at_render w3 pt pd in
     let tr := trace w3 ++ [LayoutCall t hb4 (VObj pd)] in
     render_rest this (inline_block_of c) f p layout t w =
       match invoke t hb4 (VObj pd) with
       | Ok out =>
           (Ok tt,
            World (with_contents (file w3) out) hb4 (layoutTemplate w3) tr)
       | Throw e => (Throw e, World (file w3) hb4 (layoutTemplate w3) tr)
       end).
Proof.
  intros w3. unfold render_rest, bind. subst w3.
  destruct (inline_block_of c (body p) w) as [[b'|e] w3]; simpl;
    [|left; by exists e].
  unfold lift. destruct (compile (b' ++ [c_newline])) as [pt|e];
    [|left; by exists e].
  right. exists pt. simpl. unfold call_layout, hb_at_render. simpl.
  by destruct (invoke t _ _).
Qed.

(** The [catch] block, from a world where [layoutTemplate] is undefined
    and from one where it holds a template. *)
Lemma render_catch_raw (e : exn) (w : world) :
  layoutTemplate w = None ->
  render_catch e w =
    (Throw (Error (msg_rendering e)),
     World (with_contents (file w) (raw_error_page e)) (Handlebars w) None
           (trace w)).
Proof.
  intros L. unfold render_catch, bind, gets, set_contents, modify, throw.
  simpl. rewrite !L. reflexivity.
Qed.

Lemma render_catch_layout (e : exn) (w : world) (t : tpl) :
  layoutTemplate w = Some t ->
  let ctx := VObj [(js "error", VErr e)] in
  let tr := trace w ++ [LayoutCall t (hb_at_recover w) ctx] in
  render_catch e w =
    match invoke t (hb_at_recover w) ctx with
    | Ok out =>
        (Throw (Error (msg_rendering e)),
         World (with_contents (file w) out) (hb_at_recover w) (Some t) tr)
    | Throw e2 => (Throw e2, World (file w) (hb_at_recover w) (Some t) tr)
    end.
Proof.
  intros L.
  unfold render_catch, bind, gets, set_contents, registerPartial, modify,
    throw, call_layout, hb_at_recover, set_Handlebars.
  simpl. rewrite !L. simpl. destruct (invoke t _ _); simpl; by rewrite ?L.
Qed.

(** [render], from the outcome of its [try] block. *)
Lemma render_of_eq :
  render_of c this = render_with this (inline_block_of c).
Proof. by destruct c. Qed.

Lemma render_with_ok (w1 : world) :
  render_try this (inline_block_of c) (start f hb) = (Ok tt, w1) ->
  render_of c this (start f hb) =
    (Ok tt,
     World (file w1) (Handlebars w1) (layoutTemplate w1)
           (trace w1 ++ [Callback (file w1)])).
Proof.
  intros E. rewrite render_of_eq. unfold render_with, finally, try_catch.
  by rewrite E.
Qed.

Lemma render_with_throw (e : exn) (w1 : world) :
  render_try this (inline_block_of c) (start f hb) = (Throw e, w1) ->
  render_of c this (start f hb) =
    (let '(r, w2) := render_catch e w1 in
     (r, World (file w2) (Handlebars w2) (layoutTemplate w2)
               (trace w2 ++ [Callback (file w2)]))).
Proof.
  intros E. rewrite render_of_eq. unfold render_with, finally, try_catch.
  rewrite E. by destruct (render_catch e w1).
Qed.

End Runs.

(** ** The error branches *)

Section Fallback.
Context `{C : Collaborators}.
Variable this : This.t.
Variable c : copy.
Variable f : File.t.
Variable hb : handlebars.

(** How the [try] block can throw: before a layout is resolved, and then the
    world is still the one of the start, or after. *)
Lemma render_try_throw_inv (e : exn) (w1 : world) :
  render_try this (inline_block_of c) (start f hb) = (Throw e, w1) ->
  (fm (stripBom (File.contents f)) = Throw e /\ w1 = start f hb) \/
  (exists p,
     fm (stripBom (File.contents f)) = Ok p /\
     This.layouts this
       !! toString (resolve_layout this (attributes p) (basePath this f)) = None /\
     e = layout_error (resolve_layout this (attributes p) (basePath this f)) /\
     w1 = start f hb) \/
  (exists p t,
     fm (stripBom (File.contents f)) = Ok p /\
     This.layouts this
       !! toString (resolve_layout this (attributes p) (basePath this f)) = Some t /\
     layoutTemplate w1 = Some t /\ file w1 = f).
Proof.
  intros E.
  destruct (fm (stripBom (File.contents f))) as [p|e0] eqn:Efm.
  - destruct (This.layouts this
                !! toString (resolve_layout this (attributes p) (basePath this f)))
      as [t|] eqn:L.
    + right; right. exists p, t. split; [done|]. split; [done|].
      rewrite (render_try_layout this c f hb p t Efm L) in E.
      pose proof (inline_block_effect c (body p)
        (World f (Hbs (purged (partials hb)) (helpers hb)) (Some t) []))
        as (Hf & Hl & _).
      destruct (render_rest_cases this c f p
        (resolve_layout this (attributes p) (basePath this f)) t
        (World f (Hbs (purged (partials hb)) (helpers hb)) (Some t) []))
        as [[e1 R]|[pt R]]; simpl in R; rewrite R in E.
      * injection E as <- <-. done.
      * destruct (invoke t _ _); [discriminate|].
        injection E as <- <-. done.
    + right; left. exists p. rewrite (render_try_no_layout this c f hb p Efm L) in E.
      injection E as <- <-. done.
  - left. rewrite (render_try_fm_throws this c f hb e0 Efm) in E.
    injection E as <- <-. done.
Qed.

(** When the [try] block throws, the branch of the [catch] block is
    chosen by whether [layoutTemplate] was assigned a template before the
    throw.  It was not when the front matter failed to parse or no layout
    has the resolved name; the output is then the raw HTML error document.
    That is the case when the page names no layout, its folder has none and
    there is no layout ["default"].  Otherwise the same layout template is
    run again, with [body] registered as the fixed error text and a context
    that holds only [error], and what it returns, when it returns, is the
    output. *)
Lemma fallback_tier (e : exn) (w1 : world) :
  render_try this (inline_block_of c) (start f hb) = (Throw e, w1) ->
  layoutTemplate w1 =
    match fm (stripBom (File.contents f)) with
    | Ok p =>
        This.layouts this
          !! toString (resolve_layout this (attributes p) (basePath this f))
    | Throw _ => None
    end /\
  (layoutTemplate w1 = None ->
   render_of c this (start f hb) =
     (Throw (Error (msg_rendering e)),
      World (with_contents f (raw_error_page e)) hb None
            [Callback (with_contents f (raw_error_page e))])) /\
  (forall t, layoutTemplate w1 = Some t ->
     let ctx := VObj [(js "error", VErr e)] in
     let hb1 := hb_at_recover w1 in
     let out := render_of c this (start f hb) in
     trace out.2 = trace w1 ++ [LayoutCall t hb1 ctx; Callback (file out.2)] /\
     partials hb1 !! js "body" = Some (PSource error_partial) /\
     forall s, invoke t hb1 ctx = Ok s ->
       File.contents (file out.2) = s /\
       out.1 = Throw (Error (msg_rendering e))) /\
  (forall p, fm (stripBom (File.contents f)) = Ok p ->
     truthy (get (attributes p) (js "layout")) = false ->
     truthy (folder_layout this (basePath this f)) = false ->
     This.layouts this !! js "default" = None ->
     e = Error msg_no_default /\ layoutTemplate w1 = None).
Proof.
  intros E. pose proof (render_try_throw_inv e w1 E) as Hinv.
  pose proof (render_with_throw this c f hb e w1 E) as R.
  split; [|split; [|split]].
  - destruct Hinv as [[-> ->]|[(p & -> & -> & _ & ->)|(p & t & -> & -> & -> & _)]];
      done.
  - intros L. rewrite R, (render_catch_raw e w1 L).
    destruct Hinv as [[_ ->]|[(p & _ & _ & _ & ->)|(p & t & _ & _ & L' & _)]];
      [done|done|congruence].
  - intros t L ctx hb1 out. subst out. rewrite R.
    rewrite (render_catch_layout e w1 t L). fold ctx. fold hb1.
    split; [|split].
    + destruct (invoke t hb1 ctx); simpl; by rewrite <- app_assoc.
    + unfold hb1, hb_at_recover. simpl. apply lookup_insert_eq.
    + intros s Hs. rewrite Hs. done.
  - intros p Hp Hl Hfold Hd.
    assert (Hr : resolve_layout this (attributes p) (basePath this f)
                 = VStr (js "default"))
      by (by rewrite resolve_layout_cases, Hl, Hfold).
    destruct Hinv as [[Hfm _]|[(p' & Hfm & L' & -> & ->)|(p' & t & Hfm & L' & _)]].
    + congruence.
    + assert (p' = p) as -> by congruence. rewrite Hr. done.
    + assert (p' = p) as -> by congruence. rewrite Hr in L'. simpl in L'.
      congruence.
Qed.

End Fallback.

(** ** Transient partials *)

Section Transient.
Context `{C : Collaborators}.
Variable this : This.t.
Variable c : copy.
Variable f : File.t.
Variable hb : handlebars.

Lemma only_declared_body (names : list jsstring) (h : handlebars)
    (x : partial tpl) (hs : gmap jsstring (helper helper_fn)) :
  only_declared names h ->
  only_declared names (Hbs (<[js "body" := x]> (partials h)) hs).
Proof.
  intros H k Hk. simpl. destruct (decide (k = js "body")) as [->|Hne].
  - discriminate Hk.
  - rewrite lookup_insert_ne by done. by apply H.
Qed.

Lemma layout_calls_see_execs (names : list jsstring) (tr : list event) :
  Forall (fun ev => ev = RegexExec) tr -> layout_calls_see names tr.
Proof. intros H. eapply Forall_impl; [exact H|]. by intros ? ->. Qed.

(** After the purge and the extraction block, the [layout-] partials are
    those the block registered. *)
Lemma only_declared_after_block (p : page) (t : tpl) :
  let w3 := (inline_block_of c (body p)
               (World f (Hbs (purged (partials hb)) (helpers hb)) (Some t) [])).2 in
  only_declared (declared c (body p)) (Handlebars w3) /\
  layout_calls_see (declared c (body p)) (trace w3) /\
  layoutTemplate w3 = Some t.
Proof.
  intros w3.
  pose proof (inline_block_effect c (body p)
    (World f (Hbs (purged (partials hb)) (helpers hb)) (Some t) []))
    as (_ & Hl & _ & (tr & Htr & Hex) & Hp).
  fold w3 in Hl, Htr, Hp. split; [|split; [|done]].
  - intros k Hk Hsome.
    destruct (decide (k ∈ declared c (body p))) as [|Hn]; [done|].
    rewrite (Hp k Hn) in Hsome. simpl in Hsome.
    rewrite purged_lookup, Hk in Hsome. by destruct Hsome.
  - rewrite Htr. simpl. by apply layout_calls_see_execs.
Qed.

(** C2, as it holds.  The purge deletes every [layout-] partial.  It runs
    once the front matter is parsed and the layout found, right before the
    extraction block; so for such a page every run of a layout template,
    in the [try] or the [catch] block, and the registries left behind, hold
    no [layout-] partial but those the page declares inline.  A page whose
    front matter does not parse or whose layout does not exist is not
    purged: the registries stay as they were, and no layout is run. *)
Theorem C2_transient_partials :
  let out := render_of c this (start f hb) in
  (forall k,
     purged (partials hb) !! k =
       if is_layout_partial k then None else partials hb !! k) /\
  (forall p t,
     fm (stripBom (File.contents f)) = Ok p ->
     This.layouts this
       !! toString (resolve_layout this (attributes p) (basePath this f)) = Some t ->
     render_try this (inline_block_of c) (start f hb) =
       render_rest this (inline_block_of c) f p
         (resolve_layout this (attributes p) (basePath this f)) t
         (World f (Hbs (purged (partials hb)) (helpers hb)) (Some t) []) /\
     layout_calls_see (declared c (body p)) (trace out.2) /\
     only_declared (declared c (body p)) (Handlebars out.2)) /\
  (match fm (stripBom (File.contents f)) with
   | Ok p =>
       This.layouts this
         !! toString (resolve_layout this (attributes p) (basePath this f))
   | Throw _ => None
   end = None ->
   Handlebars out.2 = hb /\ trace out.2 = [Callback (file out.2)]).
Proof.
  intros out. split; [apply purged_lookup|]. split.
  - intros p t Efm L. split; [by apply render_try_layout|].
    pose proof (render_try_layout this c f hb p t Efm L) as T.
    pose proof (only_declared_after_block p t) as (D3 & S3 & L3).
    destruct (render_rest_cases this c f p
      (resolve_layout this (attributes p) (basePath this f)) t
      (World f (Hbs (purged (partials hb)) (helpers hb)) (Some t) []))
      as [[e R]|[pt R]]; simpl in R; rewrite <- T in R.
    + (* the block or the compilation threw *)
      subst out. rewrite (render_with_throw this c f hb e _ R).
      rewrite (render_catch_layout e _ t L3).
      assert (D : only_declared (declared c (body p))
                    (hb_at_recover
                       (inline_block_of c (body p)
                          (World f (Hbs (purged (partials hb)) (helpers hb))
                             (Some t) [])).2))
        by (by apply only_declared_body).
      destruct (invoke t _ _); simpl; (split; [|exact D]);
        repeat (apply Forall_app; split); try exact S3;
        by repeat constructor.
    + (* the layout ran in the [try] block *)
      set (w3 := (inline_block_of c (body p)
                    (World f (Hbs (purged (partials hb)) (helpers hb))
                       (Some t) [])).2) in *.
      set (pd := pageData this f p
                   (resolve_layout this (attributes p) (basePath this f))) in *.
      assert (D4 : only_declared (declared c (body p)) (hb_at_render w3 pt pd))
        by (by apply only_declared_body).
      destruct (invoke t (hb_at_render w3 pt pd) (VObj pd)) as [s|e].
      * subst out. rewrite (render_with_ok this c f hb _ R). simpl.
        split; [|exact D4].
        repeat (apply Forall_app; split); try exact S3; by repeat constructor.
      * subst out. rewrite (render_with_throw this c f hb e _ R).
        rewrite (render_catch_layout e
                   (World (file w3) (hb_at_render w3 pt pd) (layoutTemplate w3)
                      (trace w3 ++ [LayoutCall t (hb_at_render w3 pt pd) (VObj pd)]))
                   t L3).
        simpl.
        assert (D5 : only_declared (declared c (body p))
                  (hb_at_recover
                     (World (file w3) (hb_at_render w3 pt pd)
                        (layoutTemplate w3)
                        (trace w3 ++ [LayoutCall t (hb_at_render w3 pt pd) (VObj pd)]))))
          by (by apply only_declared_body).
        destruct (invoke t _ _); simpl; (split; [|exact D5]);
          repeat (apply Forall_app; split); try exact S3;
          by repeat constructor.
  - intros L. subst out.
    destruct (fm (stripBom (File.contents f))) as [p|e] eqn:Efm.
    + rewrite (render_with_throw this c f hb _ _
                 (render_try_no_layout this c f hb p Efm L)).
      by rewrite render_catch_raw.
    + rewrite (render_with_throw this c f hb _ _
                 (render_try_fm_throws this c f hb e Efm)).
      by rewrite render_catch_raw.
Qed.

End Transient.

(** ** The stream callback *)

Section CallbackOnce.
Context `{C : Collaborators}.

Lemma callbacks_app (a b : list event) :
  callbacks (a ++ b) = (callbacks a + callbacks b)%nat.
Proof. unfold callbacks. by rewrite List.filter_app, length_app. Qed.

Lemma quiet_ret {A} (a : A) : quiet (ret a).
Proof. by intros w. Qed.

Lemma quiet_throw {A} (e : exn) : quiet (throw (A := A) e).
Proof. by intros w. Qed.

Lemma quiet_lift {A} (r : result A) : quiet (lift r).
Proof. by intros w. Qed.

Lemma quiet_gets {A} (g : world -> A) : quiet (gets g).
Proof. by intros w. Qed.

Lemma quiet_bind {A B} (m : M A) (k : A -> M B) :
  quiet m -> (forall a, quiet (k a)) -> quiet (bind m k).
Proof.
  intros Hm Hk w. rewrite bind_snd. destruct (m w).1.
  - by rewrite Hk.
  - apply Hm.
Qed.

Lemma quiet_try_catch {A} (m : M A) (h : exn -> M A) :
  quiet m -> (forall e, quiet (h e)) -> quiet (try_catch m h).
Proof.
  intros Hm Hh w. unfold try_catch. specialize (Hm w).
  destruct (m w) as [[a|e] w']; simpl in *; [done|]. by rewrite Hh.
Qed.

Lemma quiet_modify (g : world -> world) :
  (forall w, callbacks (trace (g w)) = callbacks (trace w)) ->
  quiet (modify g).
Proof. intros H w. apply H. Qed.

Lemma quiet_registerPartial (k : jsstring) (p : partial tpl) :
  quiet (registerPartial k p).
Proof. by apply quiet_modify. Qed.

Lemma quiet_registerHelper (k : jsstring) (h : helper helper_fn) :
  quiet (registerHelper k h).
Proof. by apply quiet_modify. Qed.

Lemma quiet_set_contents (s : jsstring) : quiet (set_contents s).
Proof. by apply quiet_modify. Qed.

Lemma quiet_regex_exec : quiet regex_exec.
Proof.
  apply quiet_modify. intros w. simpl. rewrite callbacks_app.
  change (callbacks [RegexExec]) with O. lia.
Qed.

Lemma quiet_call_layout (t : tpl) (ctx : value) : quiet (call_layout t ctx).
Proof.
  intros w. simpl. rewrite callbacks_app.
  change (callbacks [LayoutCall t (Handlebars w) ctx]) with O. lia.
Qed.

Lemma quiet_register_inline (m : inline_match) : quiet (register_inline m).
Proof.
  apply quiet_bind; [apply quiet_lift|]. intros t. apply quiet_registerPartial.
Qed.

Lemma quiet_inline_block (c : copy) (b : jsstring) :
  quiet (inline_block_of c b).
Proof.
  destruct c; simpl; unfold RenderJs.inline_block, RenderAlt.inline_block;
    destruct (has_inline b); try apply quiet_ret.
  - generalize b at 2. induction (RenderJs.matches b) as [|[x|m] ms IH];
      intros b'; cbn [RenderJs.loop];
      (apply quiet_bind; [apply quiet_regex_exec|intros _]).
    + apply quiet_ret.
    + apply IH.
    + apply quiet_bind; [apply quiet_register_inline|intros _; apply IH].
  - generalize b at 2. induction (RenderAlt.matches b) as [|m ms IH];
      intros b'; cbn [RenderAlt.loop];
      (apply quiet_bind; [apply quiet_regex_exec|intros _]).
    + apply quiet_ret.
    + apply quiet_bind; [apply quiet_register_inline|intros _; apply IH].
Qed.

Lemma quiet_render_try (this : This.t) (c : copy) :
  quiet (render_try this (inline_block_of c)).
Proof.
  unfold render_try.
  apply quiet_bind; [apply quiet_gets|intros f].
  apply quiet_bind; [apply quiet_lift|intros p].
  apply quiet_bind; [by apply quiet_modify|intros _].
  apply quiet_bind; [destruct (_ !! _); [apply quiet_ret|apply quiet_throw]|].
  intros t. apply quiet_bind; [by apply quiet_modify|intros _].
  unfold render_rest.
  apply quiet_bind; [apply quiet_inline_block|intros b'].
  apply quiet_bind; [apply quiet_lift|intros pt].
  apply quiet_bind; [apply quiet_registerHelper|intros _].
  apply quiet_bind; [apply quiet_registerHelper|intros _].
  apply quiet_bind; [apply quiet_registerPartial|intros _].
  apply quiet_bind; [apply quiet_call_layout|intros out].
  apply quiet_set_contents.
Qed.

Lemma quiet_render_catch (e : exn) : quiet (render_catch e).
Proof.
  unfold render_catch.
  apply quiet_bind; [apply quiet_gets|intros [t|]].
  - apply quiet_bind; [|intros _; apply quiet_throw].
    apply quiet_bind; [apply quiet_registerPartial|intros _].
    apply quiet_bind; [apply quiet_call_layout|intros out].
    apply quiet_set_contents.
  - apply quiet_bind; [apply quiet_set_contents|intros _; apply quiet_throw].
Qed.

(** On every path through [render], success or either error branch, and
    also when the [catch] block itself throws, the file is passed to the
    stream callback exactly once. *)
Lemma render_callback_once (this : This.t) (c : copy) (w : world) :
  callbacks (trace (render_of c this w).2) = S (callbacks (trace w)).
Proof.
  rewrite render_of_eq. unfold render_with, finally.
  pose proof (quiet_try_catch _ _ (quiet_render_try this c) quiet_render_catch w)
    as Q.
  destruct (try_catch _ _ w) as [r w']. simpl in *.
  rewrite callbacks_app, Q. change (callbacks [Callback (file w')]) with 1%nat.
  lia.
Qed.

End CallbackOnce.

(** ** What a completed loop leaves *)

Section LoopResult.
Context `{C : Collaborators}.

Lemma loop_alt_cons (m : inline_match) (ms : list inline_match)
    (b b' : jsstring) (w w' : world) :
  RenderAlt.loop (m :: ms) b w = (Ok b', w') ->
  exists t,
    compile (im_body m ++ [c_newline]) = Ok t /\
    RenderAlt.loop ms (replace_first (im_whole m) [] b) (registered_world m t w)
      = (Ok b', w').
Proof.
  cbn [RenderAlt.loop]. unfold bind at 1. unfold regex_exec, modify.
  unfold bind at 1. unfold register_inline, bind, lift.
  destruct (compile (im_body m ++ [c_newline])) as [t|e]; [|discriminate].
  intros H. by exists t.
Qed.

Lemma loop_js_cons (m : inline_match) (ms : list RenderJs.rmatch)
    (b b' : jsstring) (w w' : world) :
  RenderJs.loop (RenderJs.MPartial m :: ms) b w = (Ok b', w') ->
  exists t,
    compile (im_body m ++ [c_newline]) = Ok t /\
    RenderJs.loop ms (replace_first (im_whole m) [] b) (registered_world m t w)
      = (Ok b', w').
Proof.
  cbn [RenderJs.loop]. unfold bind at 1. unfold regex_exec, modify.
  unfold bind at 1. unfold register_inline, bind, lift.
  destruct (compile (im_body m ++ [c_newline])) as [t|e]; [|discriminate].
  intros H. by exists t.
Qed.

Lemma loop_js_comment (x : jsstring) (ms : list RenderJs.rmatch)
    (b : jsstring) (w : world) :
  RenderJs.loop (RenderJs.MComment x :: ms) b w =
    RenderJs.loop ms b
      (World (file w) (Handlebars w) (layoutTemplate w)
         (trace w ++ [RegexExec])).
Proof. reflexivity. Qed.

Lemma js_partials_names (ms : list RenderJs.rmatch) :
  omap (fun m => match m with
                 | RenderJs.MPartial m => Some (im_name m)
                 | RenderJs.MComment _ => None
                 end) ms = im_name <$> js_partials ms.
Proof.
  unfold js_partials. induction ms as [|[x|m] ms IH]; csimpl; [done|done|].
  by f_equal.
Qed.

Lemma declared_partial_matches (c : copy) (b : jsstring) :
  declared c b = im_name <$> partial_matches c b.
Proof. destruct c; [apply js_partials_names|done]. Qed.

Lemma loop_alt_body (ms : list inline_match) (b b' : jsstring) (w w' : world) :
  RenderAlt.loop ms b w = (Ok b', w') -> b' = cut_all ms b.
Proof.
  revert b w. induction ms as [|m ms IH]; intros b w H.
  - by injection H as <- _.
  - apply loop_alt_cons in H as (t & _ & H). by apply IH in H.
Qed.

Lemma loop_js_body (ms : list RenderJs.rmatch) (b b' : jsstring) (w w' : world) :
  RenderJs.loop ms b w = (Ok b', w') -> b' = cut_all (js_partials ms) b.
Proof.
  revert b w. induction ms as [|[x|m] ms IH]; intros b w H.
  - by injection H as <- _.
  - rewrite loop_js_comment in H. by apply IH in H.
  - apply loop_js_cons in H as (t & _ & H). by apply IH in H.
Qed.

Lemma loop_alt_last (ms1 ms2 : list inline_match) (m : inline_match)
    (b b' : jsstring) (w w' : world) :
  RenderAlt.loop (ms1 ++ m :: ms2) b w = (Ok b', w') ->
  im_name m ∉ im_name <$> ms2 ->
  exists t,
    compile (im_body m ++ [c_newline]) = Ok t /\
    partials (Handlebars w') !! im_name m = Some (PTemplate t).
Proof.
  revert b w. induction ms1 as [|x ms1 IH]; intros b w H Hn; cbn [app] in H.
  - apply loop_alt_cons in H as (t & Ht & H). exists t. split; [done|].
    pose proof (loop_alt_effect ms2 (replace_first (im_whole m) [] b)
                  (registered_world m t w)) as (_ & _ & _ & _ & Hp).
    rewrite H in Hp. cbn [snd] in Hp. rewrite (Hp _ Hn).
    apply lookup_insert_eq.
  - apply loop_alt_cons in H as (t & _ & H). by eapply IH.
Qed.

Lemma loop_js_last (ms1 ms2 : list RenderJs.rmatch) (m : inline_match)
    (b b' : jsstring) (w w' : world) :
  RenderJs.loop (ms1 ++ RenderJs.MPartial m :: ms2) b w = (Ok b', w') ->
  im_name m ∉ im_name <$> js_partials ms2 ->
  exists t,
    compile (im_body m ++ [c_newline]) = Ok t /\
    partials (Handlebars w') !! im_name m = Some (PTemplate t).
Proof.
  revert b w. induction ms1 as [|[x|y] ms1 IH]; intros b w H Hn; cbn [app] in H.
  - apply loop_js_cons in H as (t & Ht & H). exists t. split; [done|].
    pose proof (loop_js_effect ms2 (replace_first (im_whole m) [] b)
                  (registered_world m t w)) as (_ & _ & _ & _ & Hp).
    rewrite H, js_partials_names in Hp. cbn [snd] in Hp.
    rewrite (Hp _ Hn). apply lookup_insert_eq.
  - rewrite loop_js_comment in H. by eapply IH.
  - apply loop_js_cons in H as (t & _ & H). by eapply IH.
Qed.

(** When the extraction loop of either copy runs to its end, the body it
    returns is the page body with, for each match in turn, the first
    occurrence of the matched text cut out. *)
Lemma inline_block_body (c : copy) (b b' : jsstring) (w w' : world) :
  has_inline b = true ->
  inline_block_of c b w = (Ok b', w') ->
  b' = cut_all (partial_matches c b) b.
Proof.
  intros Hi H. destruct c; simpl in *;
    unfold RenderJs.inline_block, RenderAlt.inline_block in H;
    rewrite Hi in H.
  - by apply loop_js_body in H.
  - by apply loop_alt_body in H.
Qed.

Lemma js_partials_split (raw : list RenderJs.rmatch)
    (ms1 ms2 : list inline_match) (m : inline_match) :
  js_partials raw = ms1 ++ m :: ms2 ->
  exists r1 r2,
    raw = r1 ++ RenderJs.MPartial m :: r2 /\ js_partials r2 = ms2.
Proof.
  revert ms1. unfold js_partials.
  induction raw as [|[x|y] raw IH]; intros ms1 H; csimpl in H.
  - by destruct ms1.
  - destruct (IH ms1 H) as (r1 & r2 & -> & E).
    by exists (RenderJs.MComment x :: r1), r2.
  - destruct ms1 as [|z ms1]; injection H as -> H.
    + by exists [], raw.
    + destruct (IH ms1 H) as (r1 & r2 & -> & E).
      by exists (RenderJs.MPartial z :: r1), r2.
Qed.

(** X14: when the extraction loop of either copy runs to its end, the
    registry holds, under the name of a declaration that is the last of
    that name in the body, the compiled body of that declaration. *)
Lemma last_declaration_wins (c : copy) (b b' : jsstring) (w w' : world)
    (ms1 ms2 : list inline_match) (m : inline_match) :
  has_inline b = true ->
  inline_block_of c b w = (Ok b', w') ->
  partial_matches c b = ms1 ++ m :: ms2 ->
  im_name m ∉ im_name <$> ms2 ->
  exists t,
    compile (im_body m ++ [c_newline]) = Ok t /\
    partials (Handlebars w') !! im_name m = Some (PTemplate t).
Proof.
  intros Hi H E Hn. destruct c; simpl in *;
    unfold RenderJs.inline_block, RenderAlt.inline_block in H;
    rewrite Hi in H.
  - apply js_partials_split in E as (r1 & r2 & E & <-).
    rewrite E in H. by eapply loop_js_last.
  - rewrite E in H. by eapply loop_alt_last.
Qed.

End LoopResult.

(** ** What the expressions match *)

Section Matching.

Lemma lit_app (p r : jsstring) : lit p (p ++ r) = Some (p, r).
Proof. unfold lit. by rewrite strip_prefix_app. Qed.

Lemma span_app (P : N -> bool) (a r : jsstring) :
  all_in P a -> stops P r -> span P (a ++ r) = (a, r).
Proof.
  intros Ha Hr. induction Ha as [|c a Hc Ha IH]; simpl.
  - destruct r as [|c r]; [done|]. simpl in *. by rewrite Hr.
  - by rewrite Hc, IH.
Qed.

Lemma many_app (P : N -> bool) (a r : jsstring) :
  all_in P a -> stops P r -> many P (a ++ r) = Some (a, r).
Proof. intros. unfold many. by rewrite span_app. Qed.

Lemma many1_app (P : N -> bool) (a r : jsstring) :
  a <> [] -> all_in P a -> stops P r -> many1 P (a ++ r) = Some (a, r).
Proof.
  intros Hne Ha Hr. unfold many1. rewrite span_app by done.
  by destruct a.
Qed.

Lemma lazy_until_app (close : piece) (b r cl rest : jsstring) :
  (forall s1 s2, b = s1 ++ s2 -> s2 <> [] -> close (s2 ++ r) = None) ->
  close r = Some (cl, rest) ->
  lazy_until close (b ++ r) = Some (b, cl, rest).
Proof.
  intros Hb Hr. induction b as [|x b IH]; simpl.
  - destruct r; simpl in *; by rewrite Hr.
  - pose proof (Hb [] (x :: b) eq_refl ltac:(done)) as H0. simpl in H0.
    rewrite H0, IH; [done|]. intros s1 s2 -> Hs. by apply (Hb (x :: s1)).
Qed.

Lemma close_straddle (s2 tail : jsstring) :
  s2 <> [] ->
  strip_prefix (js "{{/inline") (s2 ++ js "{{/inline" ++ tail) <> None ->
  exists s', s2 = js "{{/inline" ++ s'.
Proof.
  intros Hne H.
  change (js "{{/inline") with [123; 123; 47; 105; 110; 108; 105; 110; 101] in *.
  do 9 (destruct s2 as [|? s2];
        [try done; exfalso; apply H; clear H; cbn [strip_prefix app];
         repeat step_eqb; done|]).
  cbn [strip_prefix app] in H. repeat step_eqb; try done.
  by exists s2.
Qed.

Lemma opt_char_app (c : N) (b : bool) (r : jsstring) :
  stops (N.eqb c) r ->
  opt_char c ((if b then [c] else []) ++ r) = Some (if b then [c] else [], r).
Proof.
  intros Hr. destruct b; cbn [opt_char app].
  - by rewrite N.eqb_refl.
  - destruct r as [|d r]; [done|]. cbn [stops] in Hr. unfold opt_char.
    by rewrite Hr.
Qed.

Lemma one_app (P : N -> bool) (q : N) (r : jsstring) :
  P q = true -> one P ([q] ++ r) = Some ([q], r).
Proof. intros H. cbn [one app]. by rewrite H. Qed.

Lemma close_tag_app (ws : jsstring) (t : bool) (r : jsstring) :
  all_in is_space ws ->
  RenderAlt.close_tag (js "{{/inline" ++ ws ++ tilde t ++ js "}}" ++ r) =
    Some (js "{{/inline" ++ ws ++ tilde t ++ js "}}", r).
Proof.
  intros Hws. unfold RenderAlt.close_tag, seq.
  rewrite lit_app, many_app; [|done|by destruct t].
  unfold tilde. rewrite opt_char_app by done.
  by rewrite lit_app.
Qed.

Lemma close_tag_inside (text s1 s2 tail : jsstring) :
  includes (js "{{/inline") text = false ->
  text = s1 ++ s2 -> s2 <> [] ->
  RenderAlt.close_tag (s2 ++ js "{{/inline" ++ tail) = None.
Proof.
  intros Hinc -> Hne. unfold RenderAlt.close_tag, seq, lit.
  destruct (strip_prefix (js "{{/inline") (s2 ++ js "{{/inline" ++ tail))
    as [x|] eqn:E; [|done].
  destruct (close_straddle s2 tail Hne) as [s' ->]; [by rewrite E|].
  assert (includes (js "{{/inline") (s1 ++ js "{{/inline" ++ s') = true)
    by (apply includes_spec; eauto).
  congruence.
Qed.

Lemma is_quote_cases (q : N) : is_quote q = true -> q = 34 \/ q = 39.
Proof.
  unfold is_quote. intros [?%N.eqb_eq|?%N.eqb_eq]%orb_true_iff; auto.
Qed.

Lemma alt_accepts (t1 t2 : bool) (q : N)
    (ws1 name ws2 text ws3 ws4 rest : jsstring) :
  is_quote q = true -> ws1 <> [] ->
  all_in is_space ws1 -> all_in is_name_char name -> all_in is_space ws2 ->
  includes (js "{{/inline") text = false ->
  all_in is_space ws3 -> all_in is_space ws4 -> stops is_space rest ->
  let opening :=
    js "{{" ++ tilde t1 ++ js "#*inline" ++ ws1 ++ [q] ++ js "layout-"
    ++ name ++ [q] ++ ws2 ++ js "}}" in
  let closing := js "{{/inline" ++ ws3 ++ tilde t2 ++ js "}}" in
  RenderAlt.partial_at (opening ++ text ++ closing ++ ws4 ++ rest) =
    Some {| im_whole := opening ++ text ++ closing ++ ws4;
            im_name := js "layout-" ++ name;
            im_body := text |}.
Proof.
  intros Hq Hne H1 Hn H2 Htext H3 H4 Hrest opening closing.
  pose proof (is_quote_cases q Hq) as Hq'.
  subst opening closing. unfold RenderAlt.partial_at.
  rewrite <- !app_assoc.
  rewrite lit_app. cbn [mbind option_bind].
  unfold tilde at 1. rewrite opt_char_app by done. cbn [mbind option_bind].
  rewrite lit_app. cbn [mbind option_bind].
  rewrite many1_app; [|done|done|by destruct Hq' as [-> | ->]].
  cbn [mbind option_bind].
  rewrite one_app by done. cbn [mbind option_bind].
  rewrite lit_app. cbn [mbind option_bind].
  rewrite many_app; [|done|by destruct Hq' as [-> | ->]].
  cbn [mbind option_bind].
  rewrite lit_app. cbn [mbind option_bind].
  rewrite many_app; [|done|done].
  cbn [mbind option_bind].
  rewrite lit_app. cbn [mbind option_bind].
  rewrite (lazy_until_app RenderAlt.close_tag text _
             (js "{{/inline" ++ ws3 ++ tilde t2 ++ js "}}") (ws4 ++ rest)).
  - cbn [mbind option_bind]. rewrite many_app by done.
    cbn [mbind option_bind]. f_equal. f_equal.
    unfold tilde. by rewrite <- !app_assoc.
  - intros s1 s2 E Hs. rewrite <- ?app_assoc.
    by eapply close_tag_inside.
  - rewrite <- ?app_assoc. by apply close_tag_app.
Qed.


Lemma close_js_straddle (s2 tail : jsstring) :
  s2 <> [] ->
  strip_prefix (js "{{/inline}}") (s2 ++ js "{{/inline}}" ++ tail) <> None ->
  exists s', s2 = js "{{/inline}}" ++ s'.
Proof.
  intros Hne H.
  change (js "{{/inline}}")
    with [123; 123; 47; 105; 110; 108; 105; 110; 101; 125; 125] in *.
  do 11 (destruct s2 as [|? s2];
         [try done; exfalso; apply H; clear H; cbn [strip_prefix app];
          repeat step_eqb; done|]).
  cbn [strip_prefix app] in H. repeat step_eqb; try done.
  by exists s2.
Qed.

Lemma close_js_inside (text s1 s2 tail : jsstring) :
  includes (js "{{/inline}}") text = false ->
  text = s1 ++ s2 -> s2 <> [] ->
  lit (js "{{/inline}}") (s2 ++ js "{{/inline}}" ++ tail) = None.
Proof.
  intros Hinc -> Hne. unfold lit.
  destruct (strip_prefix (js "{{/inline}}") (s2 ++ js "{{/inline}}" ++ tail))
    as [x|] eqn:E; [|done].
  destruct (close_js_straddle s2 tail Hne) as [s' ->]; [by rewrite E|].
  assert (includes (js "{{/inline}}") (s1 ++ js "{{/inline}}" ++ s') = true)
    by (apply includes_spec; eauto).
  congruence.
Qed.

(** What [lib/render.js] takes: a double-quoted name, tags without [~]. *)
Lemma js_accepts (ws1 name text ws4 rest : jsstring) :
  ws1 <> [] -> all_in is_space ws1 -> all_in is_name_char name ->
  includes (js "{{/inline}}") text = false ->
  all_in is_space ws4 -> stops is_space rest ->
  let opening :=
    js "{{#*inline" ++ ws1 ++ [c_dquote] ++ js "layout-" ++ name
    ++ (c_dquote :: js "}}") in
  RenderJs.partial_at (opening ++ text ++ js "{{/inline}}" ++ ws4 ++ rest) =
    Some {| im_whole := opening ++ text ++ js "{{/inline}}" ++ ws4;
            im_name := js "layout-" ++ name;
            im_body := text |}.
Proof.
  intros Hne H1 Hn Htext H4 Hrest opening.
  subst opening. unfold RenderJs.partial_at.
  rewrite <- !app_assoc.
  rewrite lit_app. cbn [mbind option_bind].
  rewrite many1_app by done. cbn [mbind option_bind].
  rewrite lit_app. cbn [mbind option_bind].
  rewrite lit_app. cbn [mbind option_bind].
  rewrite many_app by done. cbn [mbind option_bind].
  rewrite lit_app. cbn [mbind option_bind].
  rewrite (lazy_until_app (lit (js "{{/inline}}")) text _
             (js "{{/inline}}") (ws4 ++ rest)).
  - cbn [mbind option_bind]. rewrite many_app by done.
    cbn [mbind option_bind]. done.
  - intros s1 s2 E Hs. by eapply close_js_inside.
  - apply lit_app.
Qed.





End Matching.

Section Untouched.
Context `{C : Collaborators}.

Lemma loop_js_only_comments (ms : list RenderJs.rmatch) (b : jsstring)
    (w : world) :
  omap (fun m => match m with
                 | RenderJs.MPartial m => Some (im_name m)
                 | RenderJs.MComment _ => None
                 end) ms = [] ->
  (RenderJs.loop ms b w).1 = Ok b /\
  Handlebars (RenderJs.loop ms b w).2 = Handlebars w.
Proof.
  revert w. induction ms as [|[x|m] ms IH]; intros w H; [done| |done].
  cbn [RenderJs.loop]. unfold bind at 1. unfold regex_exec, modify.
  apply (IH (World (file w) (Handlebars w) (layoutTemplate w)
               (trace w ++ [RegexExec])) H).
Qed.

(** A body in which the loop finds no declaration comes back as it was, and
    nothing is registered. *)
Lemma nothing_declared_untouched (c : copy) (b : jsstring) (w : world) :
  declared c b = [] ->
  (inline_block_of c b w).1 = Ok b /\
  Handlebars (inline_block_of c b w).2 = Handlebars w.
Proof.
  intros H. destruct c; simpl in *;
    unfold RenderJs.inline_block, RenderAlt.inline_block;
    destruct (has_inline b); try done.
  - by apply loop_js_only_comments.
  - apply fmap_nil_inv in H. by rewrite H.
Qed.

End Untouched.

(** ** Bodies in which nothing matches *)

Section Unmatched.
Context `{C : Collaborators}.

Lemma no_match_in_app {X} (f : jsstring -> option X) (a b r : jsstring) :
  no_match_in f a (b ++ r) -> no_match_in f b r -> no_match_in f (a ++ b) r.
Proof.
  intros Ha Hb. induction a as [|x a IH]; [done|].
  destruct Ha as [H1 H2]. cbn [app no_match_in]. rewrite <- app_assoc.
  split; [done|by apply IH].
Qed.

Lemma scan_no_match {X} (f : jsstring -> option X) (width : X -> nat)
    (a r : jsstring) (k : nat) :
  no_match_in f a r ->
  scan f width (a ++ r) k = scan f width r (k - length a).
Proof.
  revert k. induction a as [|x a IH]; intros k H.
  - by rewrite Nat.sub_0_r.
  - destruct H as [H1 H2]. cbn [app scan length].
    destruct k as [|k]; [rewrite H1|]; by rewrite IH.
Qed.

Lemma strip_comments_no_match (a r : jsstring) (k : nat) :
  no_match_in comment_at a r ->
  RenderAlt.strip_comments (a ++ r) k =
    drop k a ++ RenderAlt.strip_comments r (k - length a).
Proof.
  revert k. induction a as [|x a IH]; intros k H.
  - by rewrite Nat.sub_0_r, drop_nil.
  - destruct H as [H1 H2]. cbn [app RenderAlt.strip_comments length].
    destruct k as [|k]; [rewrite H1|]; by rewrite IH.
Qed.

Lemma comment_at_head (x : N) (s : jsstring) :
  x <> 123 -> comment_at (x :: s) = None.
Proof.
  intros H. unfold comment_at, lit. cbn [strip_prefix js].
  change (js "{{!--") with [123; 123; 33; 45; 45]. cbn [strip_prefix].
  by destruct (N.eqb_spec 123 x).
Qed.

Lemma alt_partial_at_head (x : N) (s : jsstring) :
  x <> 123 -> RenderAlt.partial_at (x :: s) = None.
Proof.
  intros H. unfold RenderAlt.partial_at, lit.
  change (js "{{") with [123; 123]. cbn [strip_prefix].
  by destruct (N.eqb_spec 123 x).
Qed.

Lemma js_match_at_head (x : N) (s : jsstring) :
  x <> 123 -> RenderJs.match_at (x :: s) = None.
Proof.
  intros H. unfold RenderJs.match_at. rewrite comment_at_head by done.
  unfold RenderJs.partial_at, lit.
  change (js "{{#*inline") with [123; 123; 35; 42; 105; 110; 108; 105; 110; 101].
  cbn [strip_prefix]. by destruct (N.eqb_spec 123 x).
Qed.

Lemma no_match_in_free {X} (f : jsstring -> option X) (a r : jsstring) :
  (forall x s, x <> 123 -> f (x :: s) = None) ->
  brace_free a -> no_match_in f a r.
Proof.
  intros Hf Ha. induction Ha as [|x a Hx Ha IH]; [done|].
  split; [by apply Hf|done].
Qed.


Lemma all_in_brace_free (P : N -> bool) (s : jsstring) :
  P 123 = false -> all_in P s -> brace_free s.
Proof.
  intros HP Hs. eapply Forall_impl; [exact Hs|].
  intros x Hx ->. congruence.
Qed.


Lemma comment_at_head2 (x : N) (s : jsstring) :
  x <> 123 -> comment_at (123 :: x :: s) = None.
Proof.
  intros H. unfold comment_at, lit.
  change (js "{{!--") with [123; 123; 33; 45; 45]. cbn [strip_prefix].
  rewrite N.eqb_refl. by destruct (N.eqb_spec 123 x).
Qed.





End Unmatched.

(** ** Quote pairing and trim markers *)


(** ** Concrete pages *)

(** C7 as written fails: a [layout] key is not enough to override the folder
    mapping.  A page in the folder [about], mapped to the layout [about],
    whose front matter asks for the layout [0] by the number 0, gets
    [about]. *)
Lemma C7_counterexample :
  ~ (forall (this : This.t) (f : File.t) (attrs : obj) (v : value),
       obj_lookup attrs (js "layout") = Some v ->
       resolve_layout this attrs (basePath this f) = v).
Proof.
  intros H.
  specialize (H site (about_page []) [(js "layout", VNum 0)] (VNum 0) eq_refl).
  vm_compute in H. discriminate H.
Qed.

(** C2 as written fails: a page whose layout does not exist is not purged.
    The partial [layout-nav] of an earlier page is still registered after
    the page, which declares no inline partial, has been rendered by
    [lib/render.js]. *)
Lemma C2_counterexample :
  fm (stripBom (js "layout: nope" ++ [c_newline] ++ js "Hello"))
    = Ok (Page [(js "layout", VStr (js "nope"))] (js "Hello")) /\
  declared LibRenderJs (js "Hello") = [] /\
  partials
    (Handlebars
       (render_of LibRenderJs site
          (start (index_page (js "layout: nope" ++ [c_newline] ++ js "Hello"))
             nav_partials)).2)
    !! js "layout-nav" = Some (PTemplate (js "<nav/>")).
Proof. vm_compute. done. Qed.


(** C5 on a page that holds a declaration inside a comment and the same
    declaration after it.  Either copy registers the live declaration and
    then cuts the first occurrence of its text out of the body, which is the
    one inside the comment: the commented declaration is stripped and the
    live one stays in the body. *)
Theorem C5_commented_copy_is_cut (c : copy) :
  let d := decl (js "layout-a") (js "X") in
  let body := js "{{!--" ++ d ++ js "--}}" ++ d ++ js "Z" in
  let out := inline_block_of c body (start (index_page body) no_partials) in
  out.1 = Ok (js "{{!----}}" ++ d ++ js "Z") /\
  partials (Handlebars out.2) !! js "layout-a"
    = Some (PTemplate (js "X" ++ [c_newline])).
Proof. destruct c; vm_compute; done. Qed.

(** C10 on a page with two live declarations of [layout-a] after a comment
    that holds a copy of the first.  The registry ends with the compiled
    body of the last declaration, but the span of the first live
    declaration is not removed: the copy inside the comment is cut in its
    place. *)
Theorem C10_first_span_stays (c : copy) :
  let d1 := decl (js "layout-a") (js "X") in
  let d2 := decl (js "layout-a") (js "Y") in
  let body := js "{{!--" ++ d1 ++ js "--}}" ++ d1 ++ d2 in
  let out := inline_block_of c body (start (index_page body) no_partials) in
  declared c body = [js "layout-a"; js "layout-a"] /\
  out.1 = Ok (js "{{!----}}" ++ d1) /\
  partials (Handlebars out.2) !! js "layout-a"
    = Some (PTemplate (js "Y" ++ [c_newline])).
Proof. destruct c; vm_compute; done. Qed.

(** In the second copy the same defect shows without a copy in a comment: the
    text matched comes from the body without its comments, so a declaration
    whose body holds a comment is registered, comment dropped, and never
    found in the page body, which keeps it; [lib/render.js] removes it. *)
Lemma comment_inside_declaration :
  let body := decl (js "layout-a") (js "X{{!-- n --}}Y") ++ js "Z" in
  let out := inline_block_of SecondCopy body (start (index_page body) no_partials) in
  let out' := inline_block_of LibRenderJs body (start (index_page body) no_partials) in
  out.1 = Ok body /\
  partials (Handlebars out.2) !! js "layout-a"
    = Some (PTemplate (js "XY" ++ [c_newline])) /\
  out'.1 = Ok (js "Z") /\
  partials (Handlebars out'.2) !! js "layout-a"
    = Some (PTemplate (js "X{{!-- n --}}Y" ++ [c_newline])).
Proof. vm_compute. done. Qed.

(** C1 on a page of the folder [about] that does not declare the partial
    [layout-nav] its layout includes.  The layout [about] is found before
    the failure, and it is the layout that throws, in the [try] block.  The
    [catch] block takes the branch of the layout, registers the fixed error
    text as [body] and runs the same layout again with [{error: e}]; the
    layout throws again, so [file.contents] is not assigned: the output is
    the source of the page, not the layout around the error text, and the
    error of the second run is what [render] throws. *)
Theorem C1_rerun_throws (c : copy) :
  let f := about_page (js "Hello") in
  let layout := js "<h1>A</h1>{{> layout-nav}}|{{> body}}" in
  let e := Error (js "The partial layout-nav could not be found") in
  let tried := render_try site (inline_block_of c) (start f no_partials) in
  let out := render_of c site (start f no_partials) in
  fm (stripBom (File.contents f)) = Ok (Page [] (js "Hello")) /\
  This.layouts site
    !! toString (resolve_layout site [] (basePath site f)) = Some layout /\
  tried.1 = Throw e /\
  layoutTemplate tried.2 = Some layout /\
  partials (Handlebars out.2) !! js "body" = Some (PSource error_partial) /\
  invoke layout (Handlebars out.2) (VObj [(js "error", VErr e)]) = Throw e /\
  trace out.2 =
    [ LayoutCall layout (hb_at_render (start f no_partials)
                           (js "Hello" ++ [c_newline])
                           (pageData site f (Page [] (js "Hello"))
                              (VStr (js "about"))))
        (VObj (pageData site f (Page [] (js "Hello")) (VStr (js "about"))));
      LayoutCall layout (Handlebars out.2) (VObj [(js "error", VErr e)]);
      Callback (file out.2) ] /\
  File.contents (file out.2) = js "Hello" /\
  out.1 = Throw e.
Proof. destruct c; repeat split; vm_compute; reflexivity. Qed.

(** C6 on a page whose layout calls a helper that is not registered.  The
    layout throws in the [try] block and again in the [catch] block, so the
    [catch] block is left before [file.contents] is assigned and before its
    own [throw]: the file goes downstream, once, with its source as
    contents, and the error that reaches the caller is the one of the second
    run.  When the first failure was another one (here a body that does not
    compile), its message is lost. *)
Theorem C6_recovery_throws (c : copy) :
  let f := index_page (js "layout: broken" ++ [c_newline] ++ js "Hello") in
  let g := index_page (js "layout: broken" ++ [c_newline] ++ js "{{#bad}}") in
  let out := render_of c site (start f no_partials) in
  let out' := render_of c site (start g no_partials) in
  (render_try site (inline_block_of c) (start f no_partials)).1
    = Throw (Error (js "Missing helper: boom")) /\
  out.1 = Throw (Error (js "Missing helper: boom")) /\
  File.contents (file out.2) = File.contents f /\
  callbacks (trace out.2) = 1%nat /\
  (render_try site (inline_block_of c) (start g no_partials)).1
    = Throw (Exn (js "Error") (js "Parse error")) /\
  out'.1 = Throw (Error (js "Missing helper: boom")) /\
  File.contents (file out'.2) = File.contents g.
Proof. destruct c; vm_compute; done. Qed.

(** ** The theorems at concrete pages *)

(** A page without inline partials goes through the fast path. *)
Lemma C8_witness :
  has_inline (js "<p>Hello</p>") = false /\
  RenderJs.inline_block (js "<p>Hello</p>")
    (start (index_page (js "<p>Hello</p>")) nav_partials)
    = (Ok (js "<p>Hello</p>"),
       start (index_page (js "<p>Hello</p>")) nav_partials) /\
  RenderAlt.inline_block (js "<p>Hello</p>")
    (start (index_page (js "<p>Hello</p>")) nav_partials)
    = (Ok (js "<p>Hello</p>"),
       start (index_page (js "<p>Hello</p>")) nav_partials).
Proof.
  split; [reflexivity|].
  apply (C8_fast_path_noop (js "<p>Hello</p>")
           (start (index_page (js "<p>Hello</p>")) nav_partials));
    apply has_inline_spec; reflexivity.
Defined.

(** A page of the folder [about]: its own layout [0], given as a string,
    wins over the folder layout; without it, or with the empty string for
    it, the folder layout is used; a page at the root with the empty string
    for its layout, or with no layout, gets [default]. *)
Lemma C7_witness :
  resolve_layout site [(js "layout", VStr (js "0"))]
    (basePath site (about_page [])) = VStr (js "0") /\
  resolve_layout site [] (basePath site (about_page [])) = VStr (js "about") /\
  resolve_layout site [(js "layout", VStr [])]
    (basePath site (about_page [])) = VStr (js "about") /\
  resolve_layout site [(js "layout", VStr [])]
    (basePath site (index_page [])) = VStr (js "default") /\
  resolve_layout site [] (basePath site (index_page [])) = VStr (js "default").
Proof.
  split; [|split; [|split; [|split]]].
  - apply (proj1 (C7_layout_precedence site (about_page [])
                    [(js "layout", VStr (js "0"))]));
      reflexivity.
  - apply (proj1 (proj2 (C7_layout_precedence site (about_page []) []))
             {[ js "about" := VStr (js "about") ]});
      [by left|reflexivity|reflexivity|reflexivity].
  - apply (proj1 (proj2 (C7_layout_precedence site (about_page [])
                           [(js "layout", VStr [])]))
             {[ js "about" := VStr (js "about") ]});
      [right; by exists (VStr [])|reflexivity|reflexivity|reflexivity].
  - apply (proj1 (proj2 (proj2 (C7_layout_precedence site (index_page [])
                                  [(js "layout", VStr [])]))));
      [right; by exists (VStr [])|].
    right. exists {[ js "about" := VStr (js "about") ]}.
    split; [reflexivity|by left].
  - apply (proj2 (proj2 (proj2 (C7_layout_precedence site (index_page []) []))));
      [reflexivity|].
    right. exists {[ js "about" := VStr (js "about") ]}.
    split; reflexivity.
Defined.

(** Without a [default] layout a page that names none gets the raw error
    document; a page whose body does not compile gets its layout around
    the error text. *)
Lemma fallback_tier_witness :
  render_try site_no_default (inline_block_of LibRenderJs)
    (start (index_page (js "Hello")) no_partials)
    = (Throw (Error (msg_no_default)),
       start (index_page (js "Hello")) no_partials) /\
  render_of LibRenderJs site_no_default
    (start (index_page (js "Hello")) no_partials)
    = (Throw (Error (msg_rendering
                       (Error msg_no_default))),
       World (with_contents (index_page (js "Hello"))
                (raw_error_page
                   (Error (msg_no_default))))
             no_partials None
             [Callback
                (with_contents (index_page (js "Hello"))
                   (raw_error_page
                      (Error (msg_no_default))))]) /\
  File.contents
    (file (render_of SecondCopy site
             (start (index_page (js "{{#bad}}")) no_partials)).2)
    = js "<h1>D</h1>Panini: template could not be parsed <br> " ++ [c_newline]
      ++ js " <pre>Error: Parse error</pre>".
Proof.
  assert (H1 : render_try site_no_default (inline_block_of LibRenderJs)
                 (start (index_page (js "Hello")) no_partials)
               = (Throw (Error (msg_no_default)),
                  start (index_page (js "Hello")) no_partials))
    by (vm_compute; reflexivity).
  assert (H2 : render_try site (inline_block_of SecondCopy)
                 (start (index_page (js "{{#bad}}")) no_partials)
               = (Throw (Exn (js "Error") (js "Parse error")),
                  World (index_page (js "{{#bad}}")) no_partials
                    (Some (js "<h1>D</h1>{{> body}}")) []))
    by (vm_compute; reflexivity).
  split; [exact H1|]. split.
  - apply (proj1 (proj2 (fallback_tier site_no_default LibRenderJs
                           (index_page (js "Hello")) no_partials _ _ H1))).
    reflexivity.
  - apply (proj2 (proj2 (proj1 (proj2 (proj2
             (fallback_tier site SecondCopy
                (index_page (js "{{#bad}}")) no_partials _ _ H2)))
             (js "<h1>D</h1>{{> body}}") eq_refl))).
    vm_compute. reflexivity.
Defined.

(** A page of the folder [about] that declares [layout-nav]: when its layout
    runs, [layout-nav] is the one of the page, and the registries hold no
    other [layout-] partial afterwards. *)
Lemma C2_witness :
  let body := decl (js "layout-nav") (js "Mine") ++ js "Hello" in
  let out := render_of LibRenderJs site (start (about_page body) nav_partials) in
  fm (stripBom body) = Ok (Page [] body) /\
  layout_calls_see [js "layout-nav"] (trace out.2) /\
  only_declared [js "layout-nav"] (Handlebars out.2).
Proof.
  intros body out. split; [vm_compute; reflexivity|].
  apply (proj1 (proj2 (C2_transient_partials site LibRenderJs
                         (about_page body) nav_partials))
           (Page [] body)
           (js "<h1>A</h1>{{> layout-nav}}|{{> body}}"));
    vm_compute; reflexivity.
Defined.


(** * Further properties of [render] *)

(** ** The search loop *)

Section Scan.
Context {X : Type} (f : jsstring -> option X) (width : X -> nat).

Lemma scan_skip_app (a r : jsstring) (k : nat) :
  scan f width (a ++ r) (length a + k) = scan f width r k.
Proof. induction a as [|x a IH]; [done|]. cbn [app length scan Nat.add]. exact IH. Qed.

(** After a match the search resumes right behind it. *)
Lemma scan_match (a r : jsstring) (m : X) :
  a <> [] -> f (a ++ r) = Some m -> width m = length a ->
  scan f width (a ++ r) 0 = m :: scan f width r 0.
Proof.
  intros Ha Hm Hw. destruct a as [|x a]; [done|].
  cbn [app] in *. cbn [scan]. rewrite Hm, Hw. cbn [length Nat.pred].
  f_equal. rewrite <- (Nat.add_0_r (length a)). apply scan_skip_app.
Qed.

(** Every match the loop sees was found at some position of the text. *)
Lemma scan_elem (s : jsstring) (k : nat) (m : X) :
  m ∈ scan f width s k -> exists s1 s2, s = s1 ++ s2 /\ f s2 = Some m.
Proof.
  revert k. induction s as [|x s IH]; intros k H; [by apply elem_of_nil in H|].
  cbn [scan] in H. destruct k as [|k].
  - destruct (f (x :: s)) as [m'|] eqn:E.
    + apply elem_of_cons in H as [->|H]; [by exists [], (x :: s)|].
      destruct (IH _ H) as (s1 & s2 & -> & H2). by exists (x :: s1), s2.
    + destruct (IH _ H) as (s1 & s2 & -> & H2). by exists (x :: s1), s2.
  - destruct (IH _ H) as (s1 & s2 & -> & H2). by exists (x :: s1), s2.
Qed.

End Scan.

(** ** What a match looks like *)

Section Inversion.

Lemma lit_inv (p s a r : jsstring) : lit p s = Some (a, r) -> a = p /\ s = p ++ r.
Proof.
  unfold lit. destruct (strip_prefix p s) as [r'|] eqn:E; [|discriminate].
  intros [= <- <-]. by apply strip_prefix_spec in E.
Qed.

Lemma span_inv (P : N -> bool) (s a r : jsstring) :
  span P s = (a, r) -> s = a ++ r /\ all_in P a /\ stops P r.
Proof.
  revert a. induction s as [|c s IH]; intros a; cbn [span].
  - intros [= <- <-]. repeat split. constructor.
  - destruct (P c) eqn:Hc.
    + destruct (span P s) as [a' r'] eqn:E. intros [= <- <-].
      destruct (IH a' eq_refl) as (-> & Ha & Hr).
      repeat split; [by constructor|done].
    + intros [= <- <-]. repeat split; [constructor|done].
Qed.

Lemma many_inv (P : N -> bool) (s a r : jsstring) :
  many P s = Some (a, r) -> s = a ++ r /\ all_in P a /\ stops P r.
Proof. unfold many. intros [= H]. by apply span_inv. Qed.

Lemma many1_inv (P : N -> bool) (s a r : jsstring) :
  many1 P s = Some (a, r) -> s = a ++ r /\ a <> [] /\ all_in P a /\ stops P r.
Proof.
  unfold many1. destruct (span P s) as [a' r'] eqn:E.
  destruct a' as [|x a']; [discriminate|]. intros [= <- <-].
  apply span_inv in E as (-> & Ha & Hr). done.
Qed.

Lemma opt_char_inv (c : N) (s a r : jsstring) :
  opt_char c s = Some (a, r) -> exists b : bool, a = (if b then [c] else []) /\ s = a ++ r.
Proof.
  unfold opt_char. destruct s as [|d s].
  - intros [= <- <-]. by exists false.
  - destruct (N.eqb_spec c d) as [<-|]; intros [= <- <-];
      [by exists true|by exists false].
Qed.

Lemma one_inv (P : N -> bool) (s a r : jsstring) :
  one P s = Some (a, r) -> exists q, a = [q] /\ P q = true /\ s = [q] ++ r.
Proof.
  unfold one. destruct s as [|d s]; [discriminate|].
  destruct (P d) eqn:E; [|discriminate]. intros [= <- <-]. by exists d.
Qed.

Lemma lazy_until_inv (close : piece) (s b c r : jsstring) :
  lazy_until close s = Some (b, c, r) ->
  exists r0, s = b ++ r0 /\ close r0 = Some (c, r) /\
    forall s1 s2, b = s1 ++ s2 -> s2 <> [] -> close (s2 ++ r0) = None.
Proof.
  revert b. induction s as [|x s IH]; intros b; cbn [lazy_until].
  - destruct (close []) as [[c' r']|] eqn:E; [|discriminate].
    intros [= <- <- <-]. exists []. repeat split; [done|].
    intros s1 s2 H Hs. by destruct s1, s2.
  - destruct (close (x :: s)) as [[c' r']|] eqn:E.
    + intros [= <- <- <-]. exists (x :: s). repeat split; [done|].
      intros s1 s2 H Hs. by destruct s1, s2.
    + destruct (lazy_until close s) as [[[b' c'] r']|] eqn:E'; [|discriminate].
      intros [= <- <- <-]. destruct (IH b' eq_refl) as (r0 & -> & Hc & Hb).
      exists r0. repeat split; [done|].
      intros s1 s2 H Hs. destruct s1 as [|y s1]; cbn [app] in H.
      * subst s2. exact E.
      * injection H as -> ->. by eapply Hb.
Qed.

End Inversion.

Section MatchShape.

(** What the combined expression of [lib/render.js] takes as a partial is a
    prefix of the text, made of the opening tag with a double-quoted name
    that starts with [layout-], the shortest body before a closing tag, the
    closing tag and all the white space behind it. *)
Lemma js_partial_at_inv (s : jsstring) (m : inline_match) :
  RenderJs.partial_at s = Some m ->
  exists ws n t rest,
    s = im_whole m ++ rest /\
    im_whole m =
      js "{{#*inline" ++ ws ++ [c_dquote] ++ js "layout-" ++ n
      ++ (c_dquote :: js "}}") ++ im_body m ++ js "{{/inline}}" ++ t /\
    im_name m = js "layout-" ++ n /\
    ws <> [] /\ all_in is_space ws /\ all_in is_name_char n /\
    all_in is_space t /\ stops is_space rest /\
    includes (js "{{/inline}}") (im_body m) = false.
Proof.
  unfold RenderJs.partial_at.
  bind_step E1. bind_step E2. bind_step E3. bind_step E4. bind_step E5.
  bind_step E6.
  match goal with
  | |- context [mbind _ ?x] =>
      destruct x as [[[b c] r]|] eqn:E7; cbn [mbind option_bind];
      [|intros; discriminate]
  end.
  bind_step E8. intros [= <-]. cbn [im_whole im_name im_body].
  apply lit_inv in E1 as [-> ->]. apply many1_inv in E2 as (-> & Hne & Hws & _).
  apply lit_inv in E3 as [-> ->]. apply lit_inv in E4 as [-> ->].
  apply many_inv in E5 as (-> & Hn & _). apply lit_inv in E6 as [-> ->].
  apply lazy_until_inv in E7 as (r0 & -> & Hc & Hb).
  apply lit_inv in Hc as [-> ->]. apply many_inv in E8 as (-> & Ht & Hr).
  eexists _, _, _, _. split; [|split; [reflexivity|]].
  { rewrite <- !app_assoc. reflexivity. }
  repeat split; try done.
  apply not_true_is_false. intros (a & b2 & ->)%includes_spec.
  specialize (Hb a (js "{{/inline}}" ++ b2) eq_refl ltac:(done)).
  rewrite <- app_assoc in Hb. by rewrite lit_app in Hb.
Qed.

Lemma close_tag_inv (r0 c r : jsstring) :
  RenderAlt.close_tag r0 = Some (c, r) ->
  exists ws (t2 : bool),
    c = js "{{/inline" ++ ws ++ tilde t2 ++ js "}}" /\ r0 = c ++ r /\
    all_in is_space ws.
Proof.
  unfold RenderAlt.close_tag, seq.
  destruct (lit (js "{{/inline") r0) as [[a1 r1]|] eqn:E1; [|discriminate].
  destruct (many is_space r1) as [[a2 r2]|] eqn:E2; [|discriminate].
  destruct (opt_char c_tilde r2) as [[a3 r3]|] eqn:E3; [|discriminate].
  destruct (lit (js "}}") r3) as [[a4 r4]|] eqn:E4; [|discriminate].
  intros [= <- <-].
  apply lit_inv in E1 as [-> ->]. apply many_inv in E2 as (-> & Hws & _).
  apply opt_char_inv in E3 as (t2 & -> & ->). apply lit_inv in E4 as [-> ->].
  exists a2, t2. split; [done|]. split; [|done].
  by rewrite <- !app_assoc.
Qed.

Lemma close_tag_plain (x : jsstring) :
  RenderAlt.close_tag (js "{{/inline}}" ++ x) = Some (js "{{/inline}}", x).
Proof. exact (close_tag_app [] false x ltac:(constructor)). Qed.

(** The same for the expression of the second copy: either quote, the same
    at both ends of the name, and the trim markers. *)
Lemma alt_partial_at_inv (s : jsstring) (m : inline_match) :
  RenderAlt.partial_at s = Some m ->
  exists (t1 t2 : bool) q ws1 n ws2 ws3 t rest,
    s = im_whole m ++ rest /\
    im_whole m =
      js "{{" ++ tilde t1 ++ js "#*inline" ++ ws1 ++ [q] ++ js "layout-" ++ n
      ++ [q] ++ ws2 ++ js "}}" ++ im_body m
      ++ (js "{{/inline" ++ ws3 ++ tilde t2 ++ js "}}") ++ t /\
    im_name m = js "layout-" ++ n /\
    is_quote q = true /\
    ws1 <> [] /\ all_in is_space ws1 /\ all_in is_name_char n /\
    all_in is_space ws2 /\ all_in is_space ws3 /\
    all_in is_space t /\ stops is_space rest /\
    includes (js "{{/inline}}") (im_body m) = false.
Proof.
  unfold RenderAlt.partial_at.
  bind_step E1. bind_step E2. bind_step E3. bind_step E4. bind_step E5.
  bind_step E6. bind_step E7. bind_step E8. bind_step E9. bind_step E10.
  match goal with
  | |- context [mbind _ ?x] =>
      destruct x as [[[b c] r]|] eqn:E11; cbn [mbind option_bind];
      [|intros; discriminate]
  end.
  bind_step E12. intros [= <-]. cbn [im_whole im_name im_body].
  apply lit_inv in E1 as [-> ->]. apply opt_char_inv in E2 as (t1 & -> & ->).
  apply lit_inv in E3 as [-> ->].
  apply many1_inv in E4 as (-> & Hne & Hws1 & _).
  apply one_inv in E5 as (q & -> & Hq & ->).
  apply lit_inv in E6 as [-> ->]. apply many_inv in E7 as (-> & Hn & _).
  apply lit_inv in E8 as [-> ->]. apply many_inv in E9 as (-> & Hws2 & _).
  apply lit_inv in E10 as [-> ->].
  apply lazy_until_inv in E11 as (r0 & -> & Hc & Hb).
  pose proof Hc as Hc'. apply close_tag_inv in Hc' as (ws3 & t2 & -> & -> & Hws3).
  apply many_inv in E12 as (-> & Ht & Hr).
  exists t1, t2, q. eexists _, _, _, ws3, _, _.
  split; [|split; [reflexivity|]].
  { unfold tilde. rewrite <- !app_assoc. reflexivity. }
  repeat split; try done.
  apply not_true_is_false. intros (a & b2 & ->)%includes_spec.
  specialize (Hb a (js "{{/inline}}" ++ b2) eq_refl ltac:(done)).
  rewrite <- app_assoc in Hb.
  by rewrite close_tag_plain in Hb.
Qed.

End MatchShape.

(** ** Every path through [render] *)

Section Paths.
Context `{C : Collaborators}.
Variable this : This.t.
Variable c : copy.
Variable f : File.t.
Variable hb : handlebars.

Lemma render_throw_resolved (e : exn) (w1 : world) (t : tpl) :
  render_try this (inline_block_of c) (start f hb) = (Throw e, w1) ->
  layoutTemplate w1 = Some t ->
  render_of c this (start f hb) = recover e w1 t.
Proof.
  intros E L. rewrite (render_with_throw this c f hb e w1 E).
  rewrite (render_catch_layout e w1 t L). unfold recover.
  by destruct (invoke t _ _).
Qed.

Lemma render_paths_eq :
  render_of c this (start f hb) = render_paths c this f hb.
Proof.
  unfold render_paths.
  destruct (fm (stripBom (File.contents f))) as [p|e] eqn:Efm.
  - destruct (This.layouts this
                !! toString (resolve_layout this (attributes p) (basePath this f)))
      as [t|] eqn:L.
    + pose proof (render_try_layout this c f hb p t Efm L) as T.
      pose proof (inline_block_effect c (body p)
        (World f (Hbs (purged (partials hb)) (helpers hb)) (Some t) []))
        as (Hf & Hl & _).
      unfold render_rest, bind in T.
      destruct (inline_block_of c (body p)
                  (World f (Hbs (purged (partials hb)) (helpers hb)) (Some t) []))
        as [[b'|e] w3]; cbn [fst snd] in *.
      * unfold lift in T.
        destruct (compile (b' ++ [c_newline])) as [pt|e].
        -- cbn in T. unfold call_layout in T. cbn in T.
           fold (hb_at_render w3 pt
                   (pageData this f p
                      (resolve_layout this (attributes p) (basePath this f)))) in T.
           destruct (invoke t _ _) as [s|e].
           ++ rewrite (render_with_ok this c f hb _ T). cbn.
              unfold with_contents. by rewrite Hf, Hl.
           ++ rewrite (render_throw_resolved e _ t T Hl). by rewrite Hf, Hl.
        -- by apply render_throw_resolved.
      * by apply render_throw_resolved.
    + rewrite (render_with_throw this c f hb _ _
                 (render_try_no_layout this c f hb p Efm L)).
      by rewrite render_catch_raw.
  - rewrite (render_with_throw this c f hb _ _
               (render_try_fm_throws this c f hb e Efm)).
    by rewrite render_catch_raw.
Qed.

End Paths.

(** ** What the loop registers, and what the fast path skips *)

Section Names.

Lemma layout_prefix (n : jsstring) : is_layout_partial (js "layout-" ++ n) = true.
Proof. apply starts_with_spec. by exists n. Qed.

(** Every name the extraction loop of either copy registers starts with
    [layout-]. *)
Lemma declared_is_layout (c : copy) (b k : jsstring) :
  k ∈ declared c b -> is_layout_partial k = true.
Proof.
  destruct c; cbn [declared].
  - intros (x & Hx & Hk)%list_elem_of_omap.
    destruct x as [w|m]; [discriminate|]. injection Hk as <-.
    apply scan_elem in Hx as (s1 & s2 & _ & Hm).
    unfold RenderJs.match_at in Hm. destruct (comment_at s2); [discriminate|].
    destruct (RenderJs.partial_at s2) as [m'|] eqn:E; [|discriminate].
    injection Hm as ->.
    apply js_partial_at_inv in E as (ws & n & t & rest & _ & _ & -> & _).
    apply layout_prefix.
  - intros (m & -> & Hm)%list_elem_of_fmap.
    apply scan_elem in Hm as (s1 & s2 & _ & E).
    apply alt_partial_at_inv in E
      as (t1 & t2 & q & ws1 & n & ws2 & ws3 & t & rest & _ & _ & -> & _).
    apply layout_prefix.
Qed.

(** In [lib/render.js] the test in front of the loop is exact: a body
    without the two substrings holds nothing the expression takes as a
    partial. *)
Lemma js_no_inline_no_partial (b : jsstring) :
  has_inline b = false -> js_partials (RenderJs.matches b) = [].
Proof.
  intros H. destruct (js_partials (RenderJs.matches b)) as [|m ms] eqn:E; [done|].
  exfalso. assert (Hm : m ∈ js_partials (RenderJs.matches b))
    by (rewrite E; by left).
  apply list_elem_of_omap in Hm as (x & Hx & Hk).
  destruct x as [w|m']; [discriminate|]. injection Hk as ->.
  apply scan_elem in Hx as (s1 & s2 & -> & Hm).
  unfold RenderJs.match_at in Hm. destruct (comment_at s2); [discriminate|].
  destruct (RenderJs.partial_at s2) as [m'|] eqn:E'; [|discriminate].
  injection Hm as ->.
  apply js_partial_at_inv in E' as (ws & n & t & rest & -> & Ew & _).
  apply has_inline_spec in H as [H _]. apply H.
  eexists s1, _. rewrite Ew, <- !app_assoc. reflexivity.
Qed.

End Names.

Section FastPath.
Context `{C : Collaborators}.

(** X1: in [lib/render.js] the fast-path test only saves work.  For a body
    that fails the test, the loop it skips would have registered nothing
    and returned the body as it was. *)
Theorem fast_path_exact (b : jsstring) (w : world) :
  has_inline b = false ->
  (RenderJs.loop (RenderJs.matches b) b w).1 = (RenderJs.inline_block b w).1 /\
  Handlebars (RenderJs.loop (RenderJs.matches b) b w).2
    = Handlebars (RenderJs.inline_block b w).2 /\
  partial_matches LibRenderJs b = [].
Proof.
  intros H. pose proof (js_no_inline_no_partial b H) as E.
  unfold RenderJs.inline_block. rewrite H. cbn [ret fst snd].
  split; [|split; [|exact E]];
    apply (loop_js_only_comments (RenderJs.matches b) b w);
    by rewrite js_partials_names, E.
Qed.

End FastPath.

(** ** What [render] leaves alone, and what it runs *)

Section Frame.
Context `{C : Collaborators}.
Variable this : This.t.
Variable c : copy.
Variable f : File.t.
Variable hb : handlebars.

Lemma only_execs_counts (tr : list event) :
  Forall (fun ev => ev = RegexExec) tr ->
  layout_calls tr = 0%nat /\ callbacks tr = 0%nat.
Proof.
  unfold layout_calls, callbacks.
  induction 1 as [|ev tr -> _ [IH1 IH2]]; [done|]. cbn. done.
Qed.

(** The world the extraction block leaves, started after the purge. *)
Lemma after_block (p : page) (t : tpl) :
  let w3 := (inline_block_of c (body p)
               (World f (Hbs (purged (partials hb)) (helpers hb)) (Some t) [])).2 in
  file w3 = f /\
  helpers (Handlebars w3) = helpers hb /\
  (forall k, is_layout_partial k = false ->
     partials (Handlebars w3) !! k = partials hb !! k) /\
  Forall (fun ev => ev = RegexExec) (trace w3).
Proof.
  intros w3.
  pose proof (inline_block_effect c (body p)
    (World f (Hbs (purged (partials hb)) (helpers hb)) (Some t) []))
    as (Hf & _ & Hh & (tr & Htr & Hex) & Hp).
  fold w3 in Hf, Hh, Htr, Hp. cbn in Hf, Hh, Htr, Hp.
  split; [done|]. split; [done|]. split.
  - intros k Hk. rewrite Hp.
    + by rewrite purged_lookup, Hk.
    + intros Hin%declared_is_layout. congruence.
  - by rewrite Htr.
Qed.

Tactic Notation "render_paths" ident(p) ident(t) ident(b') ident(w3) ident(pt) :=
  rewrite render_paths_eq; unfold render_paths, raw_outcome, recover;
  destruct (fm (stripBom (File.contents f))) as [p|?e] eqn:Efm;
  [destruct (This.layouts this
               !! toString (resolve_layout this (attributes p) (basePath this f)))
     as [t|] eqn:L;
   [pose proof (after_block p t) as (Hf & Hh & Hp & Hex);
    destruct (inline_block_of c (body p)
                (World f (Hbs (purged (partials hb)) (helpers hb)) (Some t) []))
      as [[b'|?e] w3] eqn:Eb; cbn [fst snd] in *;
    [destruct (compile (b' ++ [c_newline])) as [pt|?e] eqn:Ec;
     [destruct (invoke t (hb_at_render w3 pt _) _) as [?s|?e] eqn:Ei|]|]|]|];
  try (destruct (invoke t (hb_at_recover _) _) as [?s|?e] eqn:Er).

Lemma pageData_page (p : page) (layout : value) :
  get (pageData this f p layout) (js "page") =
    VStr (path_basename (File.path f) (path_extname (File.path f))).
Proof.
  unfold pageData, get. rewrite obj_lookup_extend.
  match goal with |- context [obj_lookup ?x (js "page")] =>
    destruct (obj_lookup x (js "page")) end.
  - simpl. by rewrite merge_value_str.
  - reflexivity.
Qed.

(** X2: [render] writes nothing of the file but its contents, no helper but
    [ifpage] and [unlesspage], and no partial but [body] and those whose
    name starts with [layout-]: everything loaded before the page is still
    there after it, on every path. *)
Theorem render_frame :
  let out := render_of c this (start f hb) in
  File.path (file out.2) = File.path f /\
  File.data (file out.2) = File.data f /\
  (forall k, k <> js "ifpage" -> k <> js "unlesspage" ->
     helpers (Handlebars out.2) !! k = helpers hb !! k) /\
  (forall k, is_layout_partial k = false -> k <> js "body" ->
     partials (Handlebars out.2) !! k = partials hb !! k).
Proof.
  cbv zeta. render_paths p t b' w3 pt; cbn; rewrite ?Hf; cbn;
    (split; [done|]; split; [done|]; split;
     [intros k K1 K2; rewrite ?lookup_insert_ne by done; by rewrite ?Hh
     |intros k K1 K2; rewrite ?lookup_insert_ne by done; by rewrite ?Hp]).
Qed.

(** X3: [render] returns without an error only when the front matter parsed,
    the layout exists, the extraction block and the compilation of the body
    went through and the layout ran; the contents of the file are then what
    the layout returned for the page data, with [body] registered as the
    compiled page and [ifpage] and [unlesspage] bound to the base name of
    the file. *)
Theorem render_success :
  let out := render_of c this (start f hb) in
  out.1 = Ok tt ->
  exists p t b' w3 pt,
    fm (stripBom (File.contents f)) = Ok p /\
    let layout := resolve_layout this (attributes p) (basePath this f) in
    let pd := pageData this f p layout in
    let name :=
      VStr (path_basename (File.path f) (path_extname (File.path f))) in
    This.layouts this !! toString layout = Some t /\
    inline_block_of c (body p)
      (World f (Hbs (purged (partials hb)) (helpers hb)) (Some t) [])
      = (Ok b', w3) /\
    compile (b' ++ [c_newline]) = Ok pt /\
    invoke t (Handlebars out.2) (VObj pd) = Ok (File.contents (file out.2)) /\
    partials (Handlebars out.2) !! js "body" = Some (PTemplate pt) /\
    helpers (Handlebars out.2) !! js "ifpage" = Some (HIfPage name) /\
    helpers (Handlebars out.2) !! js "unlesspage" = Some (HUnlessPage name).
Proof.
  cbv zeta. render_paths p t b' w3 pt; cbn [fst snd]; try discriminate.
  intros _. exists p, t, b', w3, pt.
  cbn [Handlebars file with_contents File.contents hb_at_render partials helpers].
  pose proof (pageData_page p
                (resolve_layout this (attributes p) (basePath this f)))
    as Hpage.
  rewrite Hpage. repeat split; try done.
  - apply lookup_insert_eq.
  - rewrite lookup_insert_ne by done. apply lookup_insert_eq.
  - apply lookup_insert_eq.
Qed.

Lemma layout_calls_app (a b : list event) :
  layout_calls (a ++ b) = (layout_calls a + layout_calls b)%nat.
Proof. unfold layout_calls. by rewrite List.filter_app, length_app. Qed.

(** X4: the layout template that [render] runs is always the one found for
    the resolved layout name.  It is not run at all when none was found,
    once when [render] returns without an error, and never more than twice:
    once in the [try] block and once in the [catch] block. *)
Theorem layout_runs :
  let out := render_of c this (start f hb) in
  let resolved :=
    match fm (stripBom (File.contents f)) with
    | Ok p =>
        This.layouts this
          !! toString (resolve_layout this (attributes p) (basePath this f))
    | Throw _ => None
    end in
  Forall (fun ev => match ev with
                    | LayoutCall t' _ _ => resolved = Some t'
                    | _ => True
                    end) (trace out.2) /\
  (resolved = None -> layout_calls (trace out.2) = 0%nat) /\
  (resolved <> None ->
     (1 <= layout_calls (trace out.2))%nat /\
     (layout_calls (trace out.2) <= 2)%nat) /\
  (out.1 = Ok tt -> layout_calls (trace out.2) = 1%nat).
Proof.
  cbv zeta. render_paths p t b' w3 pt; cbn [fst snd trace];
    try (pose proof (only_execs_counts _ Hex) as [Hlc _]);
    rewrite ?layout_calls_app, ?Hlc;
    (split; [repeat (apply Forall_app; split); try (by repeat constructor);
             by (eapply Forall_impl; [exact Hex|]; intros ? ->)|]);
    cbn; repeat split; try done; try lia.
Qed.

(** X5: on every path the last thing [render] does is to pass the file, as it
    is then, to the stream callback, and it does so once. *)
Theorem callback_last :
  let out := render_of c this (start f hb) in
  exists tr,
    trace out.2 = tr ++ [Callback (file out.2)] /\ callbacks tr = 0%nat.
Proof.
  cbv zeta. render_paths p t b' w3 pt; cbn [fst snd trace file];
    try (pose proof (only_execs_counts _ Hex) as [_ Hcb]);
    try (by exists []);
    eexists; (split; [reflexivity|]);
    rewrite ?callbacks_app, ?Hcb; done.
Qed.

(** X15: how [render] can end, from how its [try] block ends.  When the
    [try] block returns, [render] returns.  When the [try] block throws an
    error [e] and no layout was found, the contents of the file are the
    plain HTML error document around [e], and [render] throws its own
    rendering error made from [e].  When the [try] block throws [e] after
    the layout was found, the fixed error text is registered as [body] and
    the layout is run for [{error: e}]: when it returns, its result is the
    contents of the file and [render] throws its rendering error made from
    [e]; when it throws again, that second error is the one [render]
    throws and the file goes on as it came in. *)
Theorem render_outcomes :
  let out := render_of c this (start f hb) in
  let tried := render_try this (inline_block_of c) (start f hb) in
  let resolved :=
    match fm (stripBom (File.contents f)) with
    | Ok p =>
        This.layouts this
          !! toString (resolve_layout this (attributes p) (basePath this f))
    | Throw _ => None
    end in
  let wrapped e :=
    Error (js "Panini: rendering error occured." ++ [c_newline]
           ++ exn_toString e) in
  (tried.1 = Ok tt /\ out.1 = Ok tt) \/
  (exists e,
     tried.1 = Throw e /\
     out.1 = Throw (wrapped e) /\
     match resolved with
     | None =>
         File.contents (file out.2) =
           js "<!DOCTYPE html><html><head><title>Panini error</title></head><body><pre>"
           ++ exn_toString e ++ js "</pre></body></html>"
     | Some t =>
         partials (Handlebars out.2) !! js "body"
           = Some (PSource error_partial) /\
         invoke t (Handlebars out.2) (VObj [(js "error", VErr e)])
           = Ok (File.contents (file out.2))
     end) \/
  (exists e e2 t,
     tried.1 = Throw e /\
     resolved = Some t /\
     partials (Handlebars out.2) !! js "body" = Some (PSource error_partial) /\
     invoke t (Handlebars out.2) (VObj [(js "error", VErr e)]) = Throw e2 /\
     out.1 = Throw e2 /\ file out.2 = f).
Proof.
  cbv zeta.
  destruct (render_try this (inline_block_of c) (start f hb))
    as [[[]|e] w1] eqn:E; cbn [fst].
  - left. by rewrite (render_with_ok this c f hb w1 E).
  - right.
    destruct (render_try_throw_inv this c f hb e w1 E)
      as [[Hfm ->]|[(p & Hfm & L & _ & ->)|(p & t & Hfm & L & Lw & Hf)]];
      rewrite Hfm.
    + left. exists e.
      rewrite (render_with_throw this c f hb e (start f hb) E),
        (render_catch_raw e (start f hb) eq_refl). done.
    + left. exists e. rewrite L.
      rewrite (render_with_throw this c f hb e (start f hb) E),
        (render_catch_raw e (start f hb) eq_refl). done.
    + rewrite L, (render_throw_resolved this c f hb e w1 t E Lw).
      unfold recover.
      destruct (invoke t (hb_at_recover w1) (VObj [(js "error", VErr e)]))
        as [s|e2] eqn:Er; cbn [fst snd Handlebars file].
      * left. exists e. split; [done|]. split; [done|].
        split; [apply lookup_insert_eq|]. by rewrite Er.
      * right. exists e, e2, t. split; [done|]. split; [done|].
        split; [apply lookup_insert_eq|]. by rewrite Er.
Qed.

End Frame.

(** ** One declaration, one comment *)

Section Cut.

Lemma brace_free_app (a b : jsstring) :
  brace_free a -> brace_free b -> brace_free (a ++ b).
Proof. apply Forall_app_2. Qed.

Lemma brace_free_strip (p s : jsstring) :
  brace_free s -> strip_prefix (123 :: p) s = None.
Proof.
  intros H. destruct H as [|x s Hx _]; [done|]. cbn [strip_prefix].
  by destruct (N.eqb_spec 123 x).
Qed.

Lemma brace_free_includes (p s : jsstring) :
  brace_free s -> includes (123 :: p) s = false.
Proof.
  intros H. induction H as [|x s Hx Hs IH].
  - reflexivity.
  - cbn [includes]. rewrite IH. unfold starts_with.
    rewrite brace_free_strip; [done|by constructor].
Qed.

(** [replace] cuts the text where it stands when nothing before it holds
    an opening brace and the text starts with one. *)
Lemma replace_first_here (pre p post : jsstring) :
  brace_free pre ->
  replace_first (123 :: p) [] (pre ++ (123 :: p) ++ post) = pre ++ post.
Proof.
  intros H. induction H as [|x pre Hx Hpre IH].
  - cbn [app]. unfold replace_first.
    destruct post; cbn [strip_prefix]; rewrite N.eqb_refl;
      fold (strip_prefix p); by rewrite strip_prefix_app.
  - cbn [app] in IH |- *. cbn [replace_first strip_prefix].
    destruct (N.eqb_spec 123 x); [done|]. by rewrite IH.
Qed.

Lemma strip_skip_app (a r : jsstring) (k : nat) :
  RenderAlt.strip_comments (a ++ r) (length a + k) = RenderAlt.strip_comments r k.
Proof.
  induction a as [|x a IH]; [done|].
  cbn [app length RenderAlt.strip_comments Nat.add]. exact IH.
Qed.

Lemma strip_comment (a r : jsstring) :
  a <> [] -> comment_at (a ++ r) = Some a ->
  RenderAlt.strip_comments (a ++ r) 0 = RenderAlt.strip_comments r 0.
Proof.
  intros Ha H. destruct a as [|x a]; [done|].
  cbn [app] in *. cbn [RenderAlt.strip_comments]. rewrite H.
  cbn [length Nat.pred]. rewrite <- (Nat.add_0_r (length a)).
  apply strip_skip_app.
Qed.

Lemma strip_free (s : jsstring) :
  brace_free s -> RenderAlt.strip_comments s 0 = s.
Proof.
  intros H. rewrite <- (app_nil_r s) at 1.
  rewrite strip_comments_no_match
    by (apply no_match_in_free; [apply comment_at_head|done]).
  cbn [RenderAlt.strip_comments]. by rewrite drop_0, app_nil_r.
Qed.

Lemma scan_free {X} (f : jsstring -> option X) (width : X -> nat)
    (s : jsstring) :
  (forall x r, x <> 123 -> f (x :: r) = None) ->
  brace_free s -> scan f width s 0 = [].
Proof.
  intros Hf H. rewrite <- (app_nil_r s).
  by rewrite scan_no_match by (by apply no_match_in_free).
Qed.

Lemma comment_end_straddle (s2 tail : jsstring) :
  s2 <> [] ->
  strip_prefix (js "--}}") (s2 ++ js "--}}" ++ tail) <> None ->
  exists s', s2 = js "--}}" ++ s'.
Proof.
  intros Hne H. change (js "--}}") with [45; 45; 125; 125] in *.
  do 4 (destruct s2 as [|? s2];
        [try done; exfalso; apply H; clear H; cbn [strip_prefix app];
         repeat step_eqb; done|]).
  cbn [strip_prefix app] in H. repeat step_eqb; try done.
  by exists s2.
Qed.

(** The comment expression takes a comment whose text holds no closing
    mark, up to its closing mark. *)
Lemma comment_accepts (inner rest : jsstring) :
  includes (js "--}}") inner = false ->
  comment_at (js "{{!--" ++ inner ++ js "--}}" ++ rest)
    = Some (js "{{!--" ++ inner ++ js "--}}").
Proof.
  intros Hi. unfold comment_at. rewrite lit_app. cbn [mbind option_bind].
  rewrite (lazy_until_app (lit (js "--}}")) inner _ (js "--}}") rest).
  - done.
  - intros s1 s2 -> Hs. unfold lit.
    destruct (strip_prefix (js "--}}") (s2 ++ js "--}}" ++ rest)) eqn:E; [|done].
    destruct (comment_end_straddle s2 rest Hs) as [s' ->]; [by rewrite E|].
    assert (includes (js "--}}") (s1 ++ js "--}}" ++ s') = true)
      by (apply includes_spec; eauto).
    congruence.
  - apply lit_app.
Qed.

End Cut.

Section OneDeclaration.
Context `{C : Collaborators}.

(** X6: a body whose only opening braces are those of one comment goes
    through the extraction block of either copy untouched, and nothing is
    registered, whatever the comment holds: a declaration inside it is
    neither registered nor cut. *)
Theorem comment_left_alone (c : copy) (pre inner post : jsstring) (w : world) :
  includes (js "--}}") inner = false ->
  brace_free pre -> brace_free post ->
  let b := pre ++ js "{{!--" ++ inner ++ js "--}}" ++ post in
  (inline_block_of c b w).1 = Ok b /\
  Handlebars (inline_block_of c b w).2 = Handlebars w.
Proof.
  intros Hi Hpre Hpost b. apply nothing_declared_untouched.
  set (cm := js "{{!--" ++ inner ++ js "--}}").
  assert (Eb : b = pre ++ cm ++ post)
    by (unfold b, cm; by rewrite <- !app_assoc).
  assert (Hc : comment_at (cm ++ post) = Some cm).
  { unfold cm. rewrite <- !app_assoc. by apply comment_accepts. }
  assert (Hne : cm <> []) by done.
  rewrite Eb. clearbody cm. destruct c; unfold declared.
  - unfold RenderJs.matches.
    rewrite scan_no_match
      by (apply no_match_in_free; [apply js_match_at_head|done]).
    rewrite Nat.sub_0_l.
    rewrite (scan_match RenderJs.match_at RenderJs.rwidth cm post
               (RenderJs.MComment cm) Hne); [| |done].
    + by rewrite (scan_free _ _ post js_match_at_head Hpost).
    + unfold RenderJs.match_at. by rewrite Hc.
  - unfold RenderAlt.matches.
    rewrite strip_comments_no_match
      by (apply no_match_in_free; [apply comment_at_head|done]).
    rewrite Nat.sub_0_l, drop_0, (strip_comment cm post Hne Hc).
    rewrite (strip_free post Hpost).
    by rewrite (scan_free _ _ (pre ++ post) alt_partial_at_head
                  (brace_free_app _ _ Hpre Hpost)).
Qed.

Lemma includes_tail (p : jsstring) (x : N) (s : jsstring) :
  includes p (x :: s) = false -> includes p s = false.
Proof. cbn [includes]. by intros [_ ?]%orb_false_iff. Qed.

Lemma comment_start_straddle (s2 tail : jsstring) :
  s2 <> [] ->
  strip_prefix (js "{{!--") (s2 ++ js "{{/inline}}" ++ tail) <> None ->
  exists s', s2 = js "{{!--" ++ s'.
Proof.
  intros Hne H. change (js "{{!--") with [123; 123; 33; 45; 45] in *.
  change (js "{{/inline}}")
    with [123; 123; 47; 105; 110; 108; 105; 110; 101; 125; 125] in *.
  do 5 (destruct s2 as [|? s2];
        [try done; exfalso; apply H; clear H; cbn [strip_prefix app];
         repeat step_eqb; done|]).
  cbn [strip_prefix app] in H. repeat step_eqb; try done.
  by exists s2.
Qed.

(** No comment starts inside a text that holds no opening comment mark and
    is followed by a closing tag. *)
Lemma no_comment_start (text r : jsstring) :
  includes (js "{{!--") text = false ->
  no_match_in comment_at text (js "{{/inline}}" ++ r).
Proof.
  induction text as [|x text IH]; intros Hi; [done|].
  split; [|apply IH; by eapply includes_tail].
  change (comment_at ((x :: text) ++ js "{{/inline}}" ++ r) = None).
  unfold comment_at, lit.
  destruct (strip_prefix (js "{{!--")
              ((x :: text) ++ js "{{/inline}}" ++ r)) eqn:E; [|done].
  destruct (comment_start_straddle (x :: text) r) as [s' Hs];
    [done|by rewrite E|].
  rewrite Hs in Hi.
  assert (includes (js "{{!--") (js "{{!--" ++ s') = true)
    by (apply includes_spec; by exists [], s').
  congruence.
Qed.

Lemma strip_head (p : jsstring) (x : N) (s : jsstring) :
  x <> 123 -> strip_prefix (123 :: p) (x :: s) = None.
Proof. intros H. cbn [strip_prefix]. by destruct (N.eqb_spec 123 x). Qed.

Lemma strip_head2 (p : jsstring) (x : N) (s : jsstring) :
  x <> 123 -> strip_prefix (123 :: 123 :: p) (123 :: x :: s) = None.
Proof.
  intros H. cbn [strip_prefix]. rewrite N.eqb_refl.
  by destruct (N.eqb_spec 123 x).
Qed.

Lemma strip_head3 (p : jsstring) (y x : N) (s : jsstring) :
  x <> y -> strip_prefix (123 :: 123 :: y :: p) (123 :: 123 :: x :: s) = None.
Proof.
  intros H. cbn [strip_prefix]. rewrite !N.eqb_refl.
  by destruct (N.eqb_spec y x).
Qed.

Lemma strip_mismatch (p s : jsstring) (x y : N) :
  x <> y -> strip_prefix (x :: p) (y :: s) = None.
Proof. intros H. cbn [strip_prefix]. by destruct (N.eqb_spec x y). Qed.

Lemma strip_prefix_cancel (a p s : jsstring) :
  strip_prefix (a ++ p) (a ++ s) = strip_prefix p s.
Proof.
  induction a as [|x a IH]; [done|].
  cbn [app strip_prefix]. by rewrite N.eqb_refl.
Qed.

(** Nothing matches inside a tag that is not matched at its head, nor in
    the text without braces behind it. *)
Lemma no_match_in_tag {X} (f : jsstring -> option X)
    (x : N) (a r : jsstring) :
  (forall x s, x <> 123 -> f (x :: s) = None) ->
  (forall x s, x <> 123 -> f (123 :: x :: s) = None) ->
  f (123 :: 123 :: x :: a ++ r) = None ->
  x <> 123 -> brace_free a ->
  no_match_in f (123 :: 123 :: x :: a) r.
Proof.
  intros Hf Hf2 H0 Hx Ha. cbn [no_match_in app].
  split; [exact H0|]. split; [by apply Hf2|]. split; [by apply Hf|].
  by apply no_match_in_free.
Qed.

(** [replace] leaves a text in which the pattern does not occur. *)
Lemma replace_first_absent (p s : jsstring) :
  p <> [] -> no_match_in (strip_prefix p) s [] -> replace_first p [] s = s.
Proof.
  intros Hp. induction s as [|x s IH]; intros H.
  - destruct p; [done|reflexivity].
  - destruct H as [H0 H]. rewrite app_nil_r in H0.
    cbn [replace_first]. rewrite H0. by rewrite IH.
Qed.

Lemma opening_tag_free (ws1 name : jsstring) :
  all_in is_space ws1 -> all_in is_name_char name ->
  exists a, opening_tag ws1 name = 123 :: 123 :: 35 :: a /\ brace_free a.
Proof.
  intros H1 Hn.
  exists (js "*inline" ++ ws1 ++ [c_dquote] ++ js "layout-" ++ name
          ++ [c_dquote] ++ js "}}").
  split; [reflexivity|].
  repeat apply brace_free_app; try (by repeat constructor).
  - by apply (all_in_brace_free is_space).
  - by apply (all_in_brace_free is_name_char).
Qed.

Lemma comment_at_head3 (x : N) (s : jsstring) :
  x <> 33 -> comment_at (123 :: 123 :: x :: s) = None.
Proof.
  intros H. unfold comment_at, lit.
  change (js "{{!--") with [123; 123; 33; 45; 45].
  by rewrite strip_head3.
Qed.

(** No comment starts before or inside the opening tag, nor in a text
    without braces behind it. *)
Lemma no_comment_opening (pre ws1 name t1 r : jsstring) :
  brace_free pre -> all_in is_space ws1 -> all_in is_name_char name ->
  brace_free t1 ->
  no_match_in comment_at (pre ++ opening_tag ws1 name ++ t1) r.
Proof.
  intros Hpre H1 Hn Ht1.
  apply no_match_in_app;
    [apply no_match_in_free; [apply comment_at_head|done]|].
  destruct (opening_tag_free ws1 name H1 Hn) as (a & -> & Ha).
  change ((123 :: 123 :: 35 :: a) ++ t1) with (123 :: 123 :: 35 :: a ++ t1).
  apply no_match_in_tag;
    [apply comment_at_head|apply comment_at_head2|by apply comment_at_head3
    |done|by apply brace_free_app].
Qed.

(** Nor in the closing tag and a text without braces behind it. *)
Lemma no_comment_closing (post : jsstring) :
  brace_free post -> no_match_in comment_at (js "{{/inline}}" ++ post) [].
Proof.
  intros Hpost.
  change (js "{{/inline}}" ++ post)
    with (123 :: 123 :: 47 :: js "inline}}" ++ post).
  apply no_match_in_tag;
    [apply comment_at_head|apply comment_at_head2|by apply comment_at_head3
    |done|apply brace_free_app; [by repeat constructor|done]].
Qed.

Lemma plain_has_inline (pre ws1 name r : jsstring) :
  has_inline (pre ++ opening_tag ws1 name ++ r) = true.
Proof.
  unfold has_inline. apply orb_true_iff. left. apply includes_spec.
  eexists pre, _. unfold opening_tag. rewrite <- !app_assoc.
  reflexivity.
Qed.

Lemma plain_declaration_head (ws1 name text ws4 : jsstring) :
  exists p, plain_declaration ws1 name text ws4 = 123 :: 123 :: 35 :: p.
Proof. eexists. reflexivity. Qed.

Lemma loop_js_single (m : inline_match) (b : jsstring) (w : world) :
  RenderJs.loop [RenderJs.MPartial m] b w
    = one_match_outcome m (replace_first (im_whole m) [] b) w.
Proof.
  cbn [RenderJs.loop].
  unfold bind, regex_exec, modify, register_inline, lift, registerPartial,
    set_Handlebars, ret, one_match_outcome.
  destruct (compile (im_body m ++ [c_newline])); [|done].
  cbn. by rewrite <- app_assoc.
Qed.

Lemma loop_alt_single (m : inline_match) (b : jsstring) (w : world) :
  RenderAlt.loop [m] b w
    = one_match_outcome m (replace_first (im_whole m) [] b) w.
Proof.
  cbn [RenderAlt.loop].
  unfold bind, regex_exec, modify, register_inline, lift, registerPartial,
    set_Handlebars, ret, one_match_outcome.
  destruct (compile (im_body m ++ [c_newline])); [|done].
  cbn. by rewrite <- app_assoc.
Qed.

(** The expression of [lib/render.js] at the head of a declaration. *)
Lemma js_plain_match (ws1 name text ws4 post : jsstring) :
  ws1 <> [] -> all_in is_space ws1 -> all_in is_name_char name ->
  includes (js "{{/inline}}") text = false ->
  all_in is_space ws4 -> stops is_space post ->
  RenderJs.partial_at (plain_declaration ws1 name text ws4 ++ post) =
    Some {| im_whole := plain_declaration ws1 name text ws4;
            im_name := js "layout-" ++ name;
            im_body := text |}.
Proof.
  intros Hne H1 Hn Htext H4 Hpost.
  pose proof (js_accepts ws1 name text ws4 post Hne H1 Hn Htext H4 Hpost)
    as A.
  cbv zeta in A. rewrite <- !app_assoc in A.
  unfold plain_declaration, opening_tag. rewrite <- !app_assoc. exact A.
Qed.

(** The expression of the second copy at the head of a declaration. *)
Lemma alt_plain_match (ws1 name text ws4 post : jsstring) :
  ws1 <> [] -> all_in is_space ws1 -> all_in is_name_char name ->
  includes (js "{{/inline") text = false ->
  all_in is_space ws4 -> stops is_space post ->
  RenderAlt.partial_at (plain_declaration ws1 name text ws4 ++ post) =
    Some {| im_whole := plain_declaration ws1 name text ws4;
            im_name := js "layout-" ++ name;
            im_body := text |}.
Proof.
  intros Hne H1 Hn Htext H4 Hpost.
  pose proof (alt_accepts false false c_dquote ws1 name [] text [] ws4 post
                eq_refl Hne H1 Hn ltac:(constructor) Htext
                ltac:(constructor) H4 Hpost) as A.
  cbv zeta in A. rewrite <- !app_assoc in A.
  unfold plain_declaration, opening_tag. rewrite <- !app_assoc. exact A.
Qed.

(** The scan of the second copy over a text whose only opening braces
    before and behind one declaration are those of the declaration. *)
Lemma alt_scan_plain (pre ws1 name text ws4 post : jsstring) :
  ws1 <> [] -> all_in is_space ws1 -> all_in is_name_char name ->
  includes (js "{{/inline") text = false ->
  all_in is_space ws4 -> stops is_space post ->
  brace_free pre -> brace_free post ->
  scan RenderAlt.partial_at (fun m => length (im_whole m))
    (pre ++ plain_declaration ws1 name text ws4 ++ post) 0 =
    [ {| im_whole := plain_declaration ws1 name text ws4;
         im_name := js "layout-" ++ name;
         im_body := text |} ].
Proof.
  intros Hne H1 Hn Htext H4 Hpost Bpre Bpost.
  pose proof (alt_plain_match ws1 name text ws4 post Hne H1 Hn Htext H4 Hpost)
    as Halt.
  destruct (plain_declaration_head ws1 name text ws4) as [p Hp].
  rewrite scan_no_match
    by (apply no_match_in_free; [apply alt_partial_at_head|done]).
  rewrite Nat.sub_0_l.
  assert (Hlen : plain_declaration ws1 name text ws4 <> [])
    by (by rewrite Hp).
  rewrite (scan_match RenderAlt.partial_at _ _ post _ Hlen Halt); [|done].
  by rewrite (scan_free _ _ post alt_partial_at_head Bpost).
Qed.

(** X7: [lib/render.js] on a body with one declaration, in double quotes and
    without trim markers, whose text may hold anything but a closing tag,
    with no opening brace before or behind the declaration: the text is
    compiled with a newline appended and registered under the name, and the
    body comes back without the declaration and the white space behind it.
    When the compilation throws, the error leaves the block and nothing is
    registered. *)
Theorem js_single_declaration
    (pre ws1 name text ws4 post : jsstring) (w : world) :
  ws1 <> [] -> all_in is_space ws1 -> all_in is_name_char name ->
  includes (js "{{/inline}}") text = false ->
  all_in is_space ws4 -> stops is_space post ->
  brace_free pre -> brace_free post ->
  RenderJs.inline_block
    (pre ++ plain_declaration ws1 name text ws4 ++ post) w =
    match compile (text ++ [c_newline]) with
    | Ok t =>
        (Ok (pre ++ post),
         World (file w)
           (Hbs (<[js "layout-" ++ name := PTemplate t]>
                   (partials (Handlebars w)))
                (helpers (Handlebars w)))
           (layoutTemplate w) (trace w ++ [RegexExec; RegexExec]))
    | Throw e =>
        (Throw e,
         World (file w) (Handlebars w) (layoutTemplate w)
               (trace w ++ [RegexExec]))
    end.
Proof.
  intros Hne H1 Hn Htext H4 Hpost Bpre Bpost.
  pose proof (js_plain_match ws1 name text ws4 post Hne H1 Hn Htext H4 Hpost)
    as Hjs.
  destruct (plain_declaration_head ws1 name text ws4) as [p Hp].
  unfold RenderJs.inline_block.
  replace (has_inline (pre ++ plain_declaration ws1 name text ws4 ++ post))
    with true
    by (symmetry; unfold plain_declaration; rewrite <- app_assoc;
        apply plain_has_inline).
  unfold RenderJs.matches.
  rewrite scan_no_match
    by (apply no_match_in_free; [apply js_match_at_head|done]).
  rewrite Nat.sub_0_l.
  assert (Hlen : plain_declaration ws1 name text ws4 <> [])
    by (by rewrite Hp).
  rewrite (scan_match RenderJs.match_at RenderJs.rwidth _ post
             (RenderJs.MPartial
                {| im_whole := plain_declaration ws1 name text ws4;
                   im_name := js "layout-" ++ name;
                   im_body := text |}) Hlen); [| |done].
  - rewrite (scan_free _ _ post js_match_at_head Bpost).
    rewrite loop_js_single. cbn [im_whole].
    rewrite Hp, replace_first_here by done. reflexivity.
  - unfold RenderJs.match_at. rewrite Hjs, Hp. cbn [app].
    by rewrite comment_at_head3.
Qed.

(** X8: the second copy on a body with one declaration, in double quotes
    and without trim markers, whose text holds no opening comment mark and
    nothing that starts like a closing tag, with no opening brace before or
    behind the declaration: the text is compiled with a newline appended
    and registered under the name, and the body comes back without the
    declaration and the white space behind it.  When the compilation
    throws, the error leaves the block and nothing is registered. *)
Theorem alt_single_declaration
    (pre ws1 name text ws4 post : jsstring) (w : world) :
  ws1 <> [] -> all_in is_space ws1 -> all_in is_name_char name ->
  includes (js "{{/inline") text = false ->
  includes (js "{{!--") text = false ->
  all_in is_space ws4 -> stops is_space post ->
  brace_free pre -> brace_free post ->
  RenderAlt.inline_block
    (pre ++ plain_declaration ws1 name text ws4 ++ post) w =
    match compile (text ++ [c_newline]) with
    | Ok t =>
        (Ok (pre ++ post),
         World (file w)
           (Hbs (<[js "layout-" ++ name := PTemplate t]>
                   (partials (Handlebars w)))
                (helpers (Handlebars w)))
           (layoutTemplate w) (trace w ++ [RegexExec; RegexExec]))
    | Throw e =>
        (Throw e,
         World (file w) (Handlebars w) (layoutTemplate w)
               (trace w ++ [RegexExec]))
    end.
Proof.
  intros Hne H1 Hn Htext Hcm H4 Hpost Bpre Bpost.
  destruct (plain_declaration_head ws1 name text ws4) as [p Hp].
  assert (Hnc : no_match_in comment_at
                  (pre ++ plain_declaration ws1 name text ws4 ++ post) []).
  { unfold plain_declaration.
    replace (pre ++ (opening_tag ws1 name ++ text ++ js "{{/inline}}" ++ ws4)
             ++ post)
      with ((pre ++ opening_tag ws1 name ++ [])
            ++ text ++ js "{{/inline}}" ++ ws4 ++ post)
      by (by rewrite app_nil_r, <- !app_assoc).
    apply no_match_in_app;
      [apply no_comment_opening; try done; constructor|].
    apply no_match_in_app.
    { rewrite app_nil_r. by apply no_comment_start. }
    apply no_comment_closing, brace_free_app; [|done].
    by apply (all_in_brace_free is_space). }
  unfold RenderAlt.inline_block.
  replace (has_inline (pre ++ plain_declaration ws1 name text ws4 ++ post))
    with true
    by (symmetry; unfold plain_declaration; rewrite <- app_assoc;
        apply plain_has_inline).
  unfold RenderAlt.matches.
  rewrite <- (app_nil_r (pre ++ _ ++ post)) at 1.
  rewrite strip_comments_no_match by done.
  cbn [RenderAlt.strip_comments]. rewrite drop_0, app_nil_r.
  rewrite alt_scan_plain by done.
  rewrite loop_alt_single. cbn [im_whole].
  rewrite Hp, replace_first_here by done. reflexivity.
Qed.

(** X9: the second copy on a body that holds one declaration, in double
    quotes and without trim markers, whose text is a text, one comment and
    a text, where no opening brace stands before or behind the declaration
    nor in the two texts nor inside the comment, and the comment does not
    hold its own closing mark.  The declaration is registered and not cut:
    the loop reads the body without its comments, so what it compiles is
    the two texts joined, with a newline appended; and what it then cuts
    from the body is the declaration without the comment, which does not
    occur in the body, so that the body is returned as it was.  When the
    compilation throws, the error leaves the block and nothing is
    registered. *)
Theorem alt_comment_in_declaration
    (pre ws1 name t1 inner t2 ws4 post : jsstring) (w : world) :
  ws1 <> [] -> all_in is_space ws1 -> all_in is_name_char name ->
  brace_free t1 -> brace_free inner -> includes (js "--}}") inner = false ->
  brace_free t2 ->
  all_in is_space ws4 -> stops is_space post ->
  brace_free pre -> brace_free post ->
  let b :=
    pre
    ++ plain_declaration ws1 name
         (t1 ++ js "{{!--" ++ inner ++ js "--}}" ++ t2) ws4
    ++ post in
  RenderAlt.inline_block b w =
    match compile (t1 ++ t2 ++ [c_newline]) with
    | Ok t =>
        (Ok b,
         World (file w)
           (Hbs (<[js "layout-" ++ name := PTemplate t]>
                   (partials (Handlebars w)))
                (helpers (Handlebars w)))
           (layoutTemplate w) (trace w ++ [RegexExec; RegexExec]))
    | Throw e =>
        (Throw e,
         World (file w) (Handlebars w) (layoutTemplate w)
               (trace w ++ [RegexExec]))
    end.
Proof.
  intros Hne H1 Hn Bt1 Bin Hin Bt2 H4 Hpost Bpre Bpost b.
  set (cm := js "{{!--" ++ inner ++ js "--}}").
  set (tl := js "{{/inline}}" ++ ws4 ++ post).
  assert (Btl : brace_free (ws4 ++ post))
    by (apply brace_free_app; [by apply (all_in_brace_free is_space)|done]).
  assert (Eb : b = (pre ++ opening_tag ws1 name ++ t1) ++ cm ++ t2 ++ tl).
  { unfold b, plain_declaration, cm, tl. by rewrite <- !app_assoc. }
  assert (Hc : comment_at (cm ++ t2 ++ tl) = Some cm).
  { unfold cm. rewrite <- !app_assoc. by apply comment_accepts. }
  assert (Hcm : cm <> []) by done.
  assert (Es : RenderAlt.strip_comments b 0
               = pre ++ plain_declaration ws1 name (t1 ++ t2) ws4 ++ post).
  { rewrite Eb.
    rewrite strip_comments_no_match by (by apply no_comment_opening).
    rewrite Nat.sub_0_l, drop_0, (strip_comment cm (t2 ++ tl) Hcm Hc).
    rewrite <- (app_nil_r (t2 ++ tl)).
    rewrite strip_comments_no_match.
    - cbn [RenderAlt.strip_comments]. rewrite drop_0, app_nil_r.
      unfold plain_declaration, tl. by rewrite <- !app_assoc.
    - apply no_match_in_app;
        [apply no_match_in_free; [apply comment_at_head|done]|].
      by apply no_comment_closing. }
  set (wh := plain_declaration ws1 name (t1 ++ t2) ws4).
  assert (Habs : no_match_in (strip_prefix wh) b []).
  { destruct (plain_declaration_head ws1 name (t1 ++ t2) ws4) as [p Hp].
    fold wh in Hp.
    destruct (opening_tag_free ws1 name H1 Hn) as (a & Ea & Ba).
    assert (E0 : forall r,
               strip_prefix wh
                 ((123 :: 123 :: 35 :: a ++ t1) ++ 123 :: 123 :: 33 :: r)
               = None).
    { intros r. unfold wh, plain_declaration. rewrite Ea.
      rewrite <- (app_assoc t1 t2), (app_assoc _ t1).
      change ((123 :: 123 :: 35 :: a) ++ t1)
        with (123 :: 123 :: 35 :: a ++ t1).
      rewrite strip_prefix_cancel.
      destruct Bt2 as [|x t2 Hx _]; [reflexivity|].
      by apply strip_mismatch. }
    replace b
      with (pre ++ (opening_tag ws1 name ++ t1)
            ++ (js "{{!--" ++ inner ++ js "--}}" ++ t2)
            ++ (js "{{/inline}}" ++ ws4 ++ post))
      by (rewrite Eb; unfold cm, tl; by rewrite <- !app_assoc).
    change (js "{{!--" ++ inner ++ js "--}}" ++ t2)
      with (123 :: 123 :: 33 :: js "--" ++ inner ++ js "--}}" ++ t2).
    change (js "{{/inline}}" ++ ws4 ++ post)
      with (123 :: 123 :: 47 :: js "inline}}" ++ ws4 ++ post).
    rewrite Hp.
    apply no_match_in_app;
      [apply no_match_in_free; [intros; by apply strip_head|done]|].
    apply no_match_in_app.
    { rewrite Ea.
      change ((123 :: 123 :: 35 :: a) ++ t1)
        with (123 :: 123 :: 35 :: a ++ t1).
      apply no_match_in_tag;
        [intros; by apply strip_head|intros; by apply strip_head2| |done
        |by apply brace_free_app].
      rewrite <- Hp. apply E0. }
    apply no_match_in_app.
    - apply no_match_in_tag;
        [intros; by apply strip_head|intros; by apply strip_head2
        |by apply strip_head3|done|].
      repeat apply brace_free_app; try done; by repeat constructor.
    - apply no_match_in_tag;
        [intros; by apply strip_head|intros; by apply strip_head2
        |by apply strip_head3|done|].
      apply brace_free_app; [by repeat constructor|done]. }
  assert (Hwh : wh <> []).
  { destruct (plain_declaration_head ws1 name (t1 ++ t2) ws4) as [p Hp].
    unfold wh. by rewrite Hp. }
  unfold RenderAlt.inline_block.
  replace (has_inline b) with true
    by (symmetry; unfold b, plain_declaration; rewrite <- app_assoc;
        apply plain_has_inline).
  unfold RenderAlt.matches. rewrite Es.
  rewrite alt_scan_plain; try done.
  - rewrite loop_alt_single. cbn [im_whole]. fold wh.
    rewrite (replace_first_absent wh b Hwh Habs).
    unfold one_match_outcome. cbn [im_body im_name].
    by rewrite <- app_assoc.
  - apply brace_free_includes. by apply brace_free_app.
Qed.

End OneDeclaration.

(** ** The layers of the page data, key by key *)

Section PageData.
Context `{C : Collaborators}.
Variable this : This.t.
Variable f : File.t.
Variable p : page.
Variable layout : value.

Lemma merge_value_scalar (a b : value) :
  is_object b = false -> merge_value a b = b.
Proof. destruct b; try done; by destruct a. Qed.

Lemma merge_opt_scalar (a : option value) (v : value) :
  is_object v = false -> merge_opt a (Some v) = Some v.
Proof. intros H. destruct a; [|done]. cbn. by rewrite merge_value_scalar. Qed.

Lemma merge_opt_none (a : option value) : merge_opt a None = a.
Proof. by destruct a. Qed.

(** Every key of the page data, from the four layers. *)
Lemma pageData_lookup (k : jsstring) :
  obj_lookup (pageData this f p layout) k =
    merge_opt
      (merge_opt
         (merge_opt (obj_lookup (This.data this) k)
                    (obj_lookup (default [] (File.data f)) k))
         (obj_lookup (attributes p) k))
      (obj_lookup (constants this f layout) k).
Proof.
  unfold pageData.
  assert (E : match File.data f with
              | Some d => extend (extend [] (This.data this)) d
              | None => extend [] (This.data this)
              end
              = extend (extend [] (This.data this)) (default [] (File.data f))).
  { destruct (File.data f); [done|]. cbn [default]. by rewrite extend_nil_r. }
  rewrite E, !obj_lookup_extend. reflexivity.
Qed.

Lemma constants_other (k : jsstring) :
  k <> js "page" -> k <> js "layout" -> k <> js "root" ->
  obj_lookup (constants this f layout) k = None.
Proof.
  intros K1 K2 K3. unfold constants. cbn [obj_lookup].
  repeat case_decide; congruence.
Qed.

(** X10: the page data, key by key.  [root] is always the constant of
    [render], and so is [layout] when the resolved layout is not a mapping.
    For every other key but [page], a front-matter value that is not a
    mapping wins; without one, such a value of the file's own data wins;
    and a key that neither of them holds keeps the value of the global
    data. *)
Theorem page_data_precedence :
  let pd := pageData this f p layout in
  let fd := default [] (File.data f) in
  get pd (js "root") = VStr (processRoot (File.path f) (This.root this)) /\
  (is_object layout = false -> get pd (js "layout") = layout) /\
  forall k, k <> js "page" -> k <> js "layout" -> k <> js "root" ->
    (forall v, obj_lookup (attributes p) k = Some v ->
       is_object v = false -> get pd k = v) /\
    (forall v, obj_lookup (attributes p) k = None ->
       obj_lookup fd k = Some v -> is_object v = false -> get pd k = v) /\
    (obj_lookup (attributes p) k = None -> obj_lookup fd k = None ->
       get pd k = get (This.data this) k).
Proof.
  cbv zeta. unfold get. split; [|split].
  - rewrite pageData_lookup.
    replace (obj_lookup (constants this f layout) (js "root"))
      with (Some (VStr (processRoot (File.path f) (This.root this))))
      by reflexivity.
    by rewrite merge_opt_scalar.
  - intros Hl. rewrite pageData_lookup.
    replace (obj_lookup (constants this f layout) (js "layout"))
      with (Some layout) by reflexivity.
    by rewrite merge_opt_scalar.
  - intros k K1 K2 K3. rewrite pageData_lookup, constants_other by done.
    rewrite merge_opt_none. split; [|split].
    + intros v -> Hv. by rewrite merge_opt_scalar.
    + intros v -> -> Hv. by rewrite merge_opt_none, merge_opt_scalar.
    + intros -> ->. by rewrite !merge_opt_none.
Qed.

End PageData.

(** ** What the expressions take as a declaration *)

Section Shape.

(** X11: the expression of [lib/render.js] matches at the head of a text
    exactly when the text starts with a declaration of this form: the
    opening tag with white space before a name in double quotes that starts
    with [layout-] and goes on with word characters and hyphens, a text
    without a closing tag, the closing tag, and all the white space that
    follows.  The match is that declaration, its name and its text. *)
Theorem js_declaration_shape (s : jsstring) (m : inline_match) :
  RenderJs.partial_at s = Some m <->
  exists ws n t rest,
    s = im_whole m ++ rest /\
    im_whole m =
      js "{{#*inline" ++ ws ++ [c_dquote] ++ js "layout-" ++ n
      ++ (c_dquote :: js "}}") ++ im_body m ++ js "{{/inline}}" ++ t /\
    im_name m = js "layout-" ++ n /\
    ws <> [] /\ all_in is_space ws /\ all_in is_name_char n /\
    all_in is_space t /\ stops is_space rest /\
    includes (js "{{/inline}}") (im_body m) = false.
Proof.
  split; [apply js_partial_at_inv|].
  intros (ws & n & t & rest & -> & Ew & En & Hne & Hws & Hn & Ht & Hr & Hb).
  pose proof (js_accepts ws n (im_body m) t rest Hne Hws Hn Hb Ht Hr) as A.
  cbv zeta in A. destruct m as [wh nm bd]. cbn [im_whole im_name im_body] in *.
  subst wh nm. rewrite <- !app_assoc. rewrite <- !app_assoc in A.
  rewrite A. by rewrite <- ?app_assoc.
Qed.

(** X12: whatever the loop of either copy finds is a declaration standing in
    the text the loop reads (the body in [lib/render.js], the body without
    its comments in the second copy): an opening tag, with a quoted name
    that starts with [layout-], a text without the plain closing tag, a
    closing tag and the white space behind it.  In [lib/render.js] there is
    no trim marker, the quotes are double quotes and the tags hold no other
    white space. *)
Theorem matches_are_declarations (c : copy) (b : jsstring) (m : inline_match) :
  m ∈ partial_matches c b ->
  exists (t1 t2 : bool) q ws1 n ws2 ws3 t s1 rest,
    scanned c b = s1 ++ im_whole m ++ rest /\
    im_whole m =
      js "{{" ++ tilde t1 ++ js "#*inline" ++ ws1 ++ [q] ++ js "layout-" ++ n
      ++ [q] ++ ws2 ++ js "}}" ++ im_body m
      ++ (js "{{/inline" ++ ws3 ++ tilde t2 ++ js "}}") ++ t /\
    im_name m = js "layout-" ++ n /\
    is_quote q = true /\
    ws1 <> [] /\ all_in is_space ws1 /\ all_in is_name_char n /\
    all_in is_space ws2 /\ all_in is_space ws3 /\
    all_in is_space t /\ stops is_space rest /\
    includes (js "{{/inline}}") (im_body m) = false /\
    (c = LibRenderJs ->
       t1 = false /\ t2 = false /\ q = c_dquote /\ ws2 = [] /\ ws3 = []).
Proof.
  destruct c; cbn [partial_matches scanned].
  - intros (x & Hx & Hk)%list_elem_of_omap.
    destruct x as [w|m']; [discriminate|]. injection Hk as ->.
    apply scan_elem in Hx as (s1 & s2 & -> & Hm).
    unfold RenderJs.match_at in Hm. destruct (comment_at s2); [discriminate|].
    destruct (RenderJs.partial_at s2) as [m'|] eqn:E; [|discriminate].
    injection Hm as ->.
    apply js_partial_at_inv in E
      as (ws & n & t & rest & -> & Ew & En & Hne & Hws & Hn & Ht & Hr & Hb).
    exists false, false, c_dquote, ws, n, [], [], t, s1, rest.
    split; [reflexivity|]. split; [exact Ew|].
    repeat split; try done; constructor.
  - intros Hm. apply scan_elem in Hm as (s1 & s2 & Es & E).
    apply alt_partial_at_inv in E
      as (t1 & t2 & q & ws1 & n & ws2 & ws3 & t & rest & -> & Ew & En & Hq
          & Hne & H1 & Hn & H2 & H3 & Ht & Hr & Hb).
    exists t1, t2, q, ws1, n, ws2, ws3, t, s1, rest.
    repeat split; done.
Qed.

End Shape.

(** ** The loop in closed form *)

Section ClosedForm.
Context `{C : Collaborators}.

Lemma loop_alt_step (m : inline_match) (ms : list inline_match)
    (b : jsstring) (w : world) :
  RenderAlt.loop (m :: ms) b w =
    match compile (im_body m ++ [c_newline]) with
    | Ok t =>
        RenderAlt.loop ms (replace_first (im_whole m) [] b)
          (registered_world m t w)
    | Throw e =>
        (Throw e,
         World (file w) (Handlebars w) (layoutTemplate w)
               (trace w ++ [RegexExec]))
    end.
Proof.
  cbn [RenderAlt.loop]. unfold bind at 1. unfold regex_exec, modify.
  unfold bind at 1. unfold register_inline, bind, lift.
  by destruct (compile (im_body m ++ [c_newline])).
Qed.

Lemma loop_js_step (m : inline_match) (ms : list RenderJs.rmatch)
    (b : jsstring) (w : world) :
  RenderJs.loop (RenderJs.MPartial m :: ms) b w =
    match compile (im_body m ++ [c_newline]) with
    | Ok t =>
        RenderJs.loop ms (replace_first (im_whole m) [] b)
          (registered_world m t w)
    | Throw e =>
        (Throw e,
         World (file w) (Handlebars w) (layoutTemplate w)
               (trace w ++ [RegexExec]))
    end.
Proof.
  cbn [RenderJs.loop]. unfold bind at 1. unfold regex_exec, modify.
  unfold bind at 1. unfold register_inline, bind, lift.
  by destruct (compile (im_body m ++ [c_newline])).
Qed.

Lemma loop_alt_closed (ms : list inline_match) (b : jsstring) (w : world) :
  (RenderAlt.loop ms b w).1 = (run_matches ms b (partials (Handlebars w))).1 /\
  partials (Handlebars (RenderAlt.loop ms b w).2)
    = (run_matches ms b (partials (Handlebars w))).2.
Proof.
  revert b w. induction ms as [|m ms IH]; intros b w; [done|].
  rewrite loop_alt_step. cbn [run_matches].
  destruct (compile (im_body m ++ [c_newline])) as [t|e]; [|done].
  apply (IH _ (registered_world m t w)).
Qed.

Lemma loop_js_closed (ms : list RenderJs.rmatch) (b : jsstring) (w : world) :
  (RenderJs.loop ms b w).1
    = (run_matches (js_partials ms) b (partials (Handlebars w))).1 /\
  partials (Handlebars (RenderJs.loop ms b w).2)
    = (run_matches (js_partials ms) b (partials (Handlebars w))).2.
Proof.
  revert b w. induction ms as [|[x|m] ms IH]; intros b w; [done| |].
  - rewrite loop_js_comment.
    apply (IH b (World (file w) (Handlebars w) (layoutTemplate w)
                       (trace w ++ [RegexExec]))).
  - rewrite loop_js_step.
    change (js_partials (RenderJs.MPartial m :: ms))
      with (m :: js_partials ms).
    cbn [run_matches].
    destruct (compile (im_body m ++ [c_newline])) as [t|e]; [|done].
    apply (IH _ (registered_world m t w)).
Qed.

(** X13: what the extraction block of either copy returns and registers, for
    a body that passes the test in front of the loop: the declarations
    found are taken in turn, each text compiled with a newline appended and
    registered under its name, and the first occurrence of each declaration
    cut from the body.  The first text that does not compile ends the loop
    with its error: the declarations before it stay registered, those
    behind it are never registered. *)
Theorem loop_closed_form (c : copy) (b : jsstring) (w : world) :
  has_inline b = true ->
  (inline_block_of c b w).1
    = (run_matches (partial_matches c b) b (partials (Handlebars w))).1 /\
  partials (Handlebars (inline_block_of c b w).2)
    = (run_matches (partial_matches c b) b (partials (Handlebars w))).2.
Proof.
  intros H. destruct c; cbn [inline_block_of partial_matches];
    unfold RenderJs.inline_block, RenderAlt.inline_block; rewrite H.
  - apply loop_js_closed.
  - apply loop_alt_closed.
Qed.

End ClosedForm.

(** ** Concrete runs of the further properties *)

(** The declaration of [layout-nav] at the head of a text is matched by
    [lib/render.js]. *)
Lemma js_declaration_shape_witness :
  RenderJs.partial_at (decl (js "layout-nav") (js "Hi") ++ js "Z")
    = Some {| im_whole := decl (js "layout-nav") (js "Hi");
              im_name := js "layout-nav";
              im_body := js "Hi" |}.
Proof.
  apply js_declaration_shape.
  exists (js " "), (js "nav"), [], (js "Z").
  cbn [im_whole im_name im_body].
  split; [reflexivity|]. split; [reflexivity|].
  split; [reflexivity|]. split; [done|].
  repeat split; try reflexivity; repeat constructor.
Defined.

(** The match the second copy finds in a page whose declaration stands
    behind a comment. *)
Lemma matches_are_declarations_witness :
  let b := js "{{!-- note --}}{{~#*inline 'layout-nav' }}Hi{{/inline ~}}Z" in
  let m := {| im_whole := js "{{~#*inline 'layout-nav' }}Hi{{/inline ~}}";
              im_name := js "layout-nav";
              im_body := js "Hi" |} in
  m ∈ partial_matches SecondCopy b /\
  exists (t1 t2 : bool) q ws1 n ws2 ws3 t s1 rest,
    scanned SecondCopy b = s1 ++ im_whole m ++ rest /\
    im_whole m =
      js "{{" ++ tilde t1 ++ js "#*inline" ++ ws1 ++ [q] ++ js "layout-" ++ n
      ++ [q] ++ ws2 ++ js "}}" ++ im_body m
      ++ (js "{{/inline" ++ ws3 ++ tilde t2 ++ js "}}") ++ t /\
    im_name m = js "layout-" ++ n /\
    is_quote q = true /\
    ws1 <> [] /\ all_in is_space ws1 /\ all_in is_name_char n /\
    all_in is_space ws2 /\ all_in is_space ws3 /\
    all_in is_space t /\ stops is_space rest /\
    includes (js "{{/inline}}") (im_body m) = false /\
    (SecondCopy = LibRenderJs ->
       t1 = false /\ t2 = false /\ q = c_dquote /\ ws2 = [] /\ ws3 = []).
Proof.
  intros b m.
  assert (H : m ∈ partial_matches SecondCopy b)
    by (replace (partial_matches SecondCopy b) with [m]
          by (vm_compute; reflexivity); by left).
  split; [exact H|]. exact (matches_are_declarations SecondCopy b m H).
Defined.

(** A body without a declaration. *)
Lemma fast_path_exact_witness :
  let b := js "<p>Hello {{name}}</p>" in
  let w := start (index_page b) nav_partials in
  has_inline b = false /\
  (RenderJs.loop (RenderJs.matches b) b w).1 = (RenderJs.inline_block b w).1 /\
  Handlebars (RenderJs.loop (RenderJs.matches b) b w).2
    = Handlebars (RenderJs.inline_block b w).2 /\
  partial_matches LibRenderJs b = [].
Proof.
  intros b w. split; [reflexivity|].
  apply (fast_path_exact b w). reflexivity.
Defined.

(** The partial [footer] and the helper [upper] are not those of [render]. *)
Lemma render_frame_witness :
  let body := decl (js "layout-nav") (js "Mine") ++ js "Hello" in
  let out := render_of LibRenderJs site (start (about_page body) nav_partials) in
  helpers (Handlebars out.2) !! js "upper" = helpers nav_partials !! js "upper" /\
  partials (Handlebars out.2) !! js "footer"
    = partials nav_partials !! js "footer".
Proof.
  intros body out.
  pose proof (render_frame site LibRenderJs (about_page body) nav_partials)
    as (_ & _ & Hh & Hp).
  split; [by apply Hh|by apply Hp].
Defined.

(** The page [index] of the demo site goes through. *)
Lemma render_success_witness :
  let f := index_page (js "Hello") in
  let out := render_of LibRenderJs site (start f no_partials) in
  out.1 = Ok tt /\
  exists p t b' w3 pt,
    fm (stripBom (File.contents f)) = Ok p /\
    This.layouts site
      !! toString (resolve_layout site (attributes p) (basePath site f))
      = Some t /\
    inline_block_of LibRenderJs (body p)
      (World f (Hbs (purged (partials no_partials)) (helpers no_partials))
             (Some t) [])
      = (Ok b', w3) /\
    compile (b' ++ [c_newline]) = Ok pt /\
    invoke t (Handlebars out.2)
      (VObj (pageData site f p
               (resolve_layout site (attributes p) (basePath site f))))
      = Ok (File.contents (file out.2)) /\
    partials (Handlebars out.2) !! js "body" = Some (PTemplate pt) /\
    helpers (Handlebars out.2) !! js "ifpage"
      = Some (HIfPage
                (VStr (path_basename (File.path f)
                         (path_extname (File.path f))))) /\
    helpers (Handlebars out.2) !! js "unlesspage"
      = Some (HUnlessPage
                (VStr (path_basename (File.path f)
                         (path_extname (File.path f))))).
Proof.
  intros f out.
  assert (H : out.1 = Ok tt) by (vm_compute; reflexivity).
  split; [exact H|].
  exact (render_success site LibRenderJs f no_partials H).
Defined.

(** The layout of the page [index] is found and run once. *)
Lemma layout_runs_witness :
  let f := index_page (js "Hello") in
  let out := render_of LibRenderJs site (start f no_partials) in
  out.1 = Ok tt /\ layout_calls (trace out.2) = 1%nat.
Proof.
  intros f out.
  assert (H : out.1 = Ok tt) by (vm_compute; reflexivity).
  split; [exact H|].
  exact (proj2 (proj2 (proj2 (layout_runs site LibRenderJs f no_partials))) H).
Defined.

(** A commented-out declaration between two texts. *)
Lemma comment_left_alone_witness :
  let inner := decl (js "layout-nav") (js "Old") in
  let b := js "<p>" ++ js "{{!--" ++ inner ++ js "--}}" ++ js "</p>" in
  let w := start (index_page b) nav_partials in
  includes (js "--}}") inner = false /\
  brace_free (js "<p>") /\ brace_free (js "</p>") /\
  (inline_block_of SecondCopy b w).1 = Ok b /\
  Handlebars (inline_block_of SecondCopy b w).2 = Handlebars w.
Proof.
  intros inner b w.
  assert (Hi : includes (js "--}}") inner = false) by reflexivity.
  assert (H1 : brace_free (js "<p>")) by (repeat constructor; discriminate).
  assert (H2 : brace_free (js "</p>")) by (repeat constructor; discriminate).
  split; [exact Hi|]. split; [exact H1|]. split; [exact H2|].
  exact (comment_left_alone SecondCopy (js "<p>") inner (js "</p>") w Hi H1 H2).
Defined.

(** A declaration whose text holds an expression, between two texts. *)
Lemma js_single_declaration_witness :
  let text := js "<a>{{title}}</a>" in
  let b :=
    js "<p>" ++ plain_declaration (js " ") (js "nav") text [c_newline]
    ++ js "</p>" in
  let w := start (index_page b) no_partials in
  compile (text ++ [c_newline]) = Ok (text ++ [c_newline]) /\
  RenderJs.inline_block b w =
    (Ok (js "<p>" ++ js "</p>"),
     World (file w)
       (Hbs (<[js "layout-" ++ js "nav" := PTemplate (text ++ [c_newline])]>
               (partials (Handlebars w)))
            (helpers (Handlebars w)))
       (layoutTemplate w) (trace w ++ [RegexExec; RegexExec])).
Proof.
  intros text b w.
  assert (Hc : compile (text ++ [c_newline]) = Ok (text ++ [c_newline]))
    by reflexivity.
  split; [exact Hc|].
  pose proof (js_single_declaration (js "<p>") (js " ") (js "nav") text
                [c_newline] (js "</p>") w) as H.
  rewrite Hc in H. apply H; try reflexivity; try done;
    repeat constructor; discriminate.
Defined.

(** The same page in the second copy. *)
Lemma alt_single_declaration_witness :
  let text := js "<a>{{title}}</a>" in
  let b :=
    js "<p>" ++ plain_declaration (js " ") (js "nav") text [c_newline]
    ++ js "</p>" in
  let w := start (index_page b) no_partials in
  compile (text ++ [c_newline]) = Ok (text ++ [c_newline]) /\
  RenderAlt.inline_block b w =
    (Ok (js "<p>" ++ js "</p>"),
     World (file w)
       (Hbs (<[js "layout-" ++ js "nav" := PTemplate (text ++ [c_newline])]>
               (partials (Handlebars w)))
            (helpers (Handlebars w)))
       (layoutTemplate w) (trace w ++ [RegexExec; RegexExec])).
Proof.
  intros text b w.
  assert (Hc : compile (text ++ [c_newline]) = Ok (text ++ [c_newline]))
    by reflexivity.
  split; [exact Hc|].
  pose proof (alt_single_declaration (js "<p>") (js " ") (js "nav") text
                [c_newline] (js "</p>") w) as H.
  rewrite Hc in H. apply H; try reflexivity; try done;
    repeat constructor; discriminate.
Defined.

(** A declaration with a note in its text: the second copy registers the
    text without the note and returns the page as it was. *)
Lemma alt_comment_in_declaration_witness :
  let b :=
    js "<p>"
    ++ plain_declaration (js " ") (js "nav")
         (js "<a>" ++ js "{{!--" ++ js " note " ++ js "--}}" ++ js "</a>")
         [c_newline]
    ++ js "</p>" in
  let w := start (index_page b) no_partials in
  compile (js "<a>" ++ js "</a>" ++ [c_newline]) = Ok (js "<a></a>" ++ [c_newline]) /\
  RenderAlt.inline_block b w =
    (Ok b,
     World (file w)
       (Hbs (<[js "layout-" ++ js "nav"
               := PTemplate (js "<a></a>" ++ [c_newline])]>
               (partials (Handlebars w)))
            (helpers (Handlebars w)))
       (layoutTemplate w) (trace w ++ [RegexExec; RegexExec])).
Proof.
  intros b w.
  assert (Hc : compile (js "<a>" ++ js "</a>" ++ [c_newline])
               = Ok (js "<a></a>" ++ [c_newline])) by reflexivity.
  split; [exact Hc|].
  pose proof (alt_comment_in_declaration (js "<p>") (js " ") (js "nav")
                (js "<a>") (js " note ") (js "</a>") [c_newline] (js "</p>") w)
    as H.
  cbv zeta in H. rewrite Hc in H. apply H; try reflexivity; try done;
    repeat constructor; discriminate.
Defined.

(** The key [site] of the global data when the front matter of the page
    holds it, and when it does not. *)
Lemma page_data_precedence_witness :
  let f := index_page [] in
  get (pageData site f (Page [(js "site", VStr (js "mine"))] [])
         (VStr (js "default"))) (js "site") = VStr (js "mine") /\
  get (pageData site f (Page [] []) (VStr (js "default"))) (js "site")
    = get (This.data site) (js "site").
Proof.
  intros f.
  assert (K1 : js "site" <> js "page") by (vm_compute; discriminate).
  assert (K2 : js "site" <> js "layout") by (vm_compute; discriminate).
  assert (K3 : js "site" <> js "root") by (vm_compute; discriminate).
  split.
  - pose proof (page_data_precedence site f
                  (Page [(js "site", VStr (js "mine"))] [])
                  (VStr (js "default"))) as (_ & _ & H).
    destruct (H (js "site") K1 K2 K3) as (Ha & _ & _).
    exact (Ha (VStr (js "mine")) eq_refl eq_refl).
  - pose proof (page_data_precedence site f (Page [] [])
                  (VStr (js "default"))) as (_ & _ & H).
    destruct (H (js "site") K1 K2 K3) as (_ & _ & Hc).
    exact (Hc eq_refl eq_refl).
Defined.

(** Two declarations, the second of which does not compile. *)
Lemma loop_closed_form_witness :
  let b :=
    decl (js "layout-a") (js "A") ++ decl (js "layout-b") (js "{{#bad")
    ++ js "Z" in
  let w := start (index_page b) no_partials in
  has_inline b = true /\
  (inline_block_of LibRenderJs b w).1
    = (run_matches (partial_matches LibRenderJs b) b
         (partials (Handlebars w))).1 /\
  partials (Handlebars (inline_block_of LibRenderJs b w).2)
    = (run_matches (partial_matches LibRenderJs b) b
         (partials (Handlebars w))).2.
Proof.
  intros b w. split; [reflexivity|].
  apply (loop_closed_form LibRenderJs b w). reflexivity.
Defined.

(** Two declarations of [layout-a]: the registry ends with the second. *)
Lemma last_declaration_wins_witness :
  let b := decl (js "layout-a") (js "X") ++ decl (js "layout-a") (js "Y") in
  let w := start (index_page b) no_partials in
  let m1 := {| im_whole := decl (js "layout-a") (js "X");
               im_name := js "layout-a"; im_body := js "X" |} in
  let m2 := {| im_whole := decl (js "layout-a") (js "Y");
               im_name := js "layout-a"; im_body := js "Y" |} in
  has_inline b = true /\
  inline_block_of LibRenderJs b w = (Ok [], (inline_block_of LibRenderJs b w).2) /\
  partial_matches LibRenderJs b = [m1] ++ m2 :: [] /\
  exists t,
    compile (im_body m2 ++ [c_newline]) = Ok t /\
    partials (Handlebars (inline_block_of LibRenderJs b w).2) !! im_name m2
      = Some (PTemplate t).
Proof.
  intros b w m1 m2.
  assert (H1 : has_inline b = true) by reflexivity.
  assert (H2 : inline_block_of LibRenderJs b w
               = (Ok [], (inline_block_of LibRenderJs b w).2))
    by (vm_compute; reflexivity).
  assert (H3 : partial_matches LibRenderJs b = [m1] ++ m2 :: [])
    by (vm_compute; reflexivity).
  split; [exact H1|]. split; [exact H2|]. split; [exact H3|].
  apply (last_declaration_wins LibRenderJs b [] w _ [m1] [] m2 H1 H2 H3).
  apply not_elem_of_nil.
Defined.
